(** * capacity-fs: a fixed-capacity decorator over an afero filesystem

    A shallow embedding of [capacityFs] (the filesystem decorator) and of
    [fileSize] (the file-handle decorator), written in explicit
    state-passing style: a Go method that mutates its receiver becomes a
    function from the state before the call to the results and the state
    after it.

    - [int64] values are integers of [Z] together with the wrap-around of
      two's-complement 64-bit arithmetic, written out at every addition,
      multiplication and conversion.
    - [error] is Go's error interface restricted to the values this package
      and its collaborators produce; a [nil] error is [None].
    - The wrapped store [afero.Fs] is an interface (a type class); every
      definition of the decorator is generic in it.
    - [sync.RWMutex] is not modelled: the embedding is sequential. *)

From Stdlib Require Import ZArith List String Ascii Bool Lia Permutation.
From Stdlib Require Import DecimalString.
From Stdlib Require Init.Byte.
Import ListNotations.

Open Scope string_scope.
Open Scope Z_scope.

Set Implicit Arguments.

(** ** Machine integers *)

Module Int64.

Definition modulus : Z := 2 ^ 64.
Definition half_modulus : Z := 2 ^ 63.
Definition max_signed : Z := half_modulus - 1.
Definition min_signed : Z := - half_modulus.

(** The value an [int64] variable holds after a computation whose exact
    result is [z]. *)
Definition wrap (z : Z) : Z := (z + half_modulus) mod modulus - half_modulus.

Definition add (x y : Z) : Z := wrap (x + y).
Definition mul (x y : Z) : Z := wrap (x * y).

(** [int64(n)] for [n] an [int]: both are 64 bits wide on the platforms the
    package is built for. *)
Definition of_int (n : Z) : Z := wrap n.

Definition in_range (z : Z) : Prop := min_signed <= z <= max_signed.

End Int64.

(** ** Errors *)

Inductive error : Type :=
| ErrNotEnoughCapacity
| errorString (msg : string)
| wrapError (msg : string) (err : error).

(** [errors.Unwrap] and [errors.Is] for the errors above. *)
Definition Unwrap (e : error) : option error :=
  match e with
  | wrapError _ err => Some err
  | _ => None
  end.

Fixpoint error_eqb (e1 e2 : error) : bool :=
  match e1, e2 with
  | ErrNotEnoughCapacity, ErrNotEnoughCapacity => true
  | errorString m1, errorString m2 => String.eqb m1 m2
  | wrapError m1 x1, wrapError m2 x2 => String.eqb m1 m2 && error_eqb x1 x2
  | _, _ => false
  end.

Fixpoint errors_Is (e target : error) : bool :=
  error_eqb e target
  || match e with
     | wrapError _ err => errors_Is err target
     | _ => false
     end.

(** [Error()] of each value. *)
Definition Error (e : error) : string :=
  match e with
  | ErrNotEnoughCapacity => "not enough capacity"
  | errorString msg => msg
  | wrapError msg _ => msg
  end.

(** The [%d] verb of [fmt]. *)
Definition fmt_d (z : Z) : string := NilZero.string_of_int (Z.to_int z).

(** ** What the package uses of [os.FileInfo] and [os.FileMode] *)

Record FileInfo : Type := { Size : Z; IsDir : bool }.

Definition FileMode : Type := Z.

(** ** [afero.Walk]

    [afero.Walk(fs, root, fn)] is a routine of the afero library.  It is
    represented by the calls it makes to [fn], in order, for as long as [fn]
    returns [nil]: [Entry path info] stands for [fn(path, info, nil)] and
    [Failure path info err] for [fn(path, info, err)] with [err] not [nil]
    (an entry that could not be stat'ed, or a directory that could not be
    listed).  The walk ends with the first error [fn] returns.  The callback
    of this package never returns [filepath.SkipDir] of its own accord. *)

Inductive Visit : Type :=
| Entry (path : string) (info : FileInfo)
| Failure (path : string) (info : option FileInfo) (err : error).

Definition WalkFunc (St : Type) : Type := Visit -> St -> option error * St.

Fixpoint walkVisits {St : Type} (vs : list Visit) (fn : WalkFunc St) (st : St)
  : option error * St :=
  match vs with
  | [] => (None, st)
  | v :: vs' =>
      match fn v st with
      | (Some err, st') => (Some err, st')
      | (None, st') => walkVisits vs' fn st'
      end
  end.

(** A value that [afero.Walk] can traverse. *)
Class Walkable (T : Type) : Type := Walk_visits : string -> T -> list Visit.

#[global] Hint Mode Walkable + : typeclass_instances.

Definition Walk {T St : Type} `{Walkable T} (f : T) (root : string)
  (fn : WalkFunc St) (st : St) : option error * St :=
  walkVisits (Walk_visits root f) fn st.

(** ** The wrapped store: [afero.Fs] and [afero.File]

    [W] is the state of the store (its tree and its open files), [F] the
    type of its file handles.  [Stat] and the walk are queries; the other
    operations return the state they leave the store in.  A Go result pair
    [(value, error)] of which the package reads the value only when the
    error is [nil] is a sum. *)

Class afero_Fs (W F : Type) : Type := {
  Fs_Create : string -> W -> (F + error) * W;
  Fs_Mkdir : string -> FileMode -> W -> option error * W;
  Fs_Open : string -> W -> (F + error) * W;
  Fs_OpenFile : string -> Z -> FileMode -> W -> (F + error) * W;
  Fs_Remove : string -> W -> option error * W;
  Fs_RemoveAll : string -> W -> option error * W;
  Fs_Stat : string -> W -> FileInfo + error;
  Fs_Name : W -> string;
  Fs_Walk : string -> W -> list Visit;
  File_Write : F -> list Byte.byte -> W -> (Z * option error) * W;
  File_WriteAt : F -> list Byte.byte -> Z -> W -> (Z * option error) * W;
  File_Truncate : F -> Z -> W -> option error * W
}.

#[global] Hint Mode afero_Fs + - : typeclass_instances.

#[global] Instance Fs_Walkable {W F : Type} `{afero_Fs W F} : Walkable W := Fs_Walk.

(** [filepath.Join] of two elements, without the final [Clean]: an empty
    element is dropped. *)
Definition filepath_Join (dir name : string) : string :=
  if String.eqb dir "" then name
  else if String.eqb name "" then dir
  else dir ++ "/" ++ name.

(** [afero.NewBasePathFs(source, path)]: the view of [source] that has
    [path] as its root.  Of that library type the package uses the walk
    only: walking the view from [root] walks [source] from [path] joined
    with [root]. *)
Record BasePathFs (W : Type) : Type := NewBasePathFs { source : W; path : string }.

Definition RealPath {W : Type} (b : BasePathFs W) (name : string) : string :=
  filepath_Join (path b) name.

#[global] Instance BasePathFs_Walkable {W F : Type} `{afero_Fs W F}
  : Walkable (BasePathFs W) :=
  fun root b => Fs_Walk (RealPath b root) (source b).

(** ** file.go: [fileSize] *)

Module fileSize.

(** The embedded [afero.File], acting on a state [St]. *)
Record afero_File (St : Type) : Type := {
  File_Write_ : list Byte.byte -> St -> (Z * option error) * St;
  File_WriteAt_ : list Byte.byte -> Z -> St -> (Z * option error) * St;
  File_Truncate_ : Z -> St -> option error * St
}.

(** [type fileSize struct { afero.File; hasEnoughCapacity func(int64) bool;
    addCapacity func(int64) }].  The two closures read and update the state
    they are bound to. *)
Record t (St : Type) : Type := {
  File : afero_File St;
  hasEnoughCapacity : Z -> St -> bool;
  addCapacity : Z -> St -> St
}.

Section Methods.
Context {St : Type}.

Definition Write (f : t St) (p : list Byte.byte) (st : St)
  : (Z * option error) * St :=
  if negb (hasEnoughCapacity f (Int64.of_int (Z.of_nat (List.length p))) st) then
    ((0, Some ErrNotEnoughCapacity), st)
  else
    let '((n, err), st1) := File_Write_ (File f) p st in
    let st2 := addCapacity f (Int64.of_int n) st1 in
    ((n, err), st2).

Definition WriteAt (f : t St) (p : list Byte.byte) (off : Z) (st : St)
  : (Z * option error) * St :=
  if negb (hasEnoughCapacity f (Int64.of_int (Z.of_nat (List.length p))) st) then
    ((0, Some ErrNotEnoughCapacity), st)
  else
    let '((n, err), st1) := File_WriteAt_ (File f) p off st in
    let st2 := addCapacity f (Int64.of_int n) st1 in
    ((n, err), st2).

Definition Truncate (f : t St) (size : Z) (st : St) : option error * St :=
  match File_Truncate_ (File f) size st with
  | (Some err, st1) => (Some err, st1)
  | (None, st1) => (None, addCapacity f (Int64.mul size (-1)) st1)
  end.

End Methods.

End fileSize.

(** ** [CalculateSizeSum]

    [size] is captured by the callback, and the returned [size] is read
    after the walk has run (the package's tests compare it with the sum of
    the tree). *)

Definition sizeWalkFunc : WalkFunc Z :=
  fun v size =>
    match v with
    | Failure _ _ err => (Some err, size)
    | Entry _ info => (None, Int64.add size (Size info))
    end.

Definition CalculateSizeSum {T : Type} `{Walkable T} (f : T) : Z * option error :=
  let '(err, size) := Walk f "" sizeWalkFunc 0 in
  (size, err).

(** ** What the package uses of Go's [strings] *)

Module strings.

(** [strings.Join(elems, sep)]. *)
Fixpoint Join (elems : list string) (sep : string) : string :=
  match elems with
  | [] => ""
  | [e] => e
  | e :: rest => e ++ sep ++ Join rest sep
  end.

(** The scan of [strings.Split] for a separator that is not empty: [cur]
    is the piece read so far, [skip] the number of characters of a matched
    separator still to pass over. *)
Fixpoint Split_from (sep : string) (skip : nat) (cur s : string) : list string :=
  match s with
  | EmptyString => [cur]
  | String c s' =>
      match skip with
      | S k => Split_from sep k cur s'
      | O =>
          if String.prefix sep s then
            cur :: Split_from sep (String.length sep - 1) "" s'
          else Split_from sep O (cur ++ String c "") s'
      end
  end.

(** [strings.Split(s, sep)]; with an empty separator the string is cut
    after every character. *)
Definition Split (s sep : string) : list string :=
  if String.eqb sep "" then
    List.map (fun c => String c "") (list_ascii_of_string s)
  else Split_from sep O "" s.

End strings.

(** [for k := range str { ret = append(ret, strings.Join(str[:k+1], "/")) }] *)
Definition possibleCombinations (str : list string) : list string :=
  List.map (fun k => strings.Join (firstn (S k) str) "/") (seq 0 (List.length str)).

(** ** [capacityFs] *)

Module capacityFs.

(** [type capacityFs struct { afero.Fs; limitedSize, cachedSize int64; mtx }]:
    [Fs] is the current state of the wrapped store. *)
Record t (W : Type) : Type := {
  Fs : W;
  limitedSize : Z;
  cachedSize : Z
}.

Section Methods.
Context {W F : Type} `{afero_Fs W F}.

(** The decorator after a call on the wrapped store left it in state [w]. *)
Definition with_Fs (a : t W) (w : W) : t W :=
  {| Fs := w; limitedSize := limitedSize a; cachedSize := cachedSize a |}.

Definition hasEnoughCapacity (size : Z) (a : t W) : bool :=
  Int64.add size (cachedSize a) <=? limitedSize a.

Definition addCapacity (size : Z) (a : t W) : t W :=
  {| Fs := Fs a;
     limitedSize := limitedSize a;
     cachedSize := Int64.add (cachedSize a) size |}.

Definition statAndCheckSize (name : string) (a : t W) : option error * t W :=
  match Fs_Stat name (Fs a) with
  | inl stat =>
      let size := Size stat in
      if negb (hasEnoughCapacity size a) then (Some ErrNotEnoughCapacity, a)
      else (None, addCapacity size a)
  | inr _ => (None, a)
  end.

Definition deferError (name : string) (err : option error) (a : t W) : t W :=
  match err with
  | Some _ => with_Fs a (snd (Fs_Remove name (Fs a)))
  | None => a
  end.

(** The [afero.File] that a handle [fi] of the wrapped store is, seen from
    the decorator's state. *)
Definition liftFile (fi : F) : fileSize.afero_File (t W) :=
  {| fileSize.File_Write_ := fun p a =>
       let '(r, w) := File_Write fi p (Fs a) in (r, with_Fs a w);
     fileSize.File_WriteAt_ := fun p off a =>
       let '(r, w) := File_WriteAt fi p off (Fs a) in (r, with_Fs a w);
     fileSize.File_Truncate_ := fun size a =>
       let '(r, w) := File_Truncate fi size (Fs a) in (r, with_Fs a w) |}.

(** [&fileSize{fi, a.hasEnoughCapacity, a.addCapacity}] *)
Definition newFileSize (fi : F) : fileSize.t (t W) :=
  {| fileSize.File := liftFile fi;
     fileSize.hasEnoughCapacity := hasEnoughCapacity;
     fileSize.addCapacity := addCapacity |}.

Definition Create (name : string) (a : t W)
  : (option (fileSize.t (t W)) * option error) * t W :=
  match Fs_Create name (Fs a) with
  | (inr err, w) => ((None, Some err), with_Fs a w)
  | (inl fi, w) =>
      let fi' := newFileSize fi in
      match statAndCheckSize name (with_Fs a w) with
      | (Some err, a1) =>
          let '(_, w') := Fs_Remove name (Fs a1) in
          ((Some fi', Some err), with_Fs a1 w')
      | (None, a1) => ((Some fi', None), a1)
      end
  end.

Definition Mkdir (name : string) (perm : FileMode) (a : t W) : option error * t W :=
  match Fs_Mkdir name perm (Fs a) with
  | (Some err, w) => (Some err, with_Fs a w)
  | (None, w) =>
      match statAndCheckSize name (with_Fs a w) with
      | (Some err, a1) =>
          let '(_, w') := Fs_Remove name (Fs a1) in
          (Some err, with_Fs a1 w')
      | (None, a1) => (None, a1)
      end
  end.

(** The body of the loop of [MkdirAll], over the prefixes still to visit. *)
Fixpoint MkdirAll_range (vs : list string) (perm : FileMode) (a : t W)
  : option error * t W :=
  match vs with
  | [] => (None, a)
  | v :: vs' =>
      match Fs_Stat v (Fs a) with
      | inl _ => MkdirAll_range vs' perm a
      | inr _ =>
          match Mkdir v perm a with
          | (Some err, a1) => (Some err, a1)
          | (None, a1) => MkdirAll_range vs' perm a1
          end
      end
  end.

Definition MkdirAll (name : string) (perm : FileMode) (a : t W) : option error * t W :=
  MkdirAll_range (possibleCombinations (strings.Split name "/")) perm a.

Definition Open (name : string) (a : t W)
  : (option (fileSize.t (t W)) * option error) * t W :=
  match Fs_Open name (Fs a) with
  | (inr err, w) => ((None, Some err), with_Fs a w)
  | (inl fi, w) => ((Some (newFileSize fi), None), with_Fs a w)
  end.

Definition OpenFile (name : string) (flag : Z) (perm : FileMode) (a : t W)
  : (option (fileSize.t (t W)) * option error) * t W :=
  match Fs_OpenFile name flag perm (Fs a) with
  | (inr err, w) => ((None, Some err), with_Fs a w)
  | (inl fi, w) => ((Some (newFileSize fi), None), with_Fs a w)
  end.

Definition beforeRemove (name : string) (a : t W) : Z * option error :=
  match Fs_Stat name (Fs a) with
  | inl stat =>
      if IsDir stat then
        match CalculateSizeSum (NewBasePathFs (Fs a) name) with
        | (size, Some err) => (size, Some err)
        | (size, None) => (size, None)
        end
      else (Size stat, None)
  | inr _ => (0, None)
  end.

Definition Remove (name : string) (a : t W) : option error * t W :=
  match beforeRemove name a with
  | (_, Some err) => (Some err, a)
  | (size, None) =>
      match Fs_Remove name (Fs a) with
      | (Some err, w) => (Some err, with_Fs a w)
      | (None, w) => (None, addCapacity (Int64.mul size (-1)) (with_Fs a w))
      end
  end.

Definition RemoveAll (name : string) (a : t W) : option error * t W :=
  match beforeRemove name a with
  | (_, Some err) => (Some err, a)
  | (size, None) =>
      match Fs_RemoveAll name (Fs a) with
      | (Some err, w) => (Some err, with_Fs a w)
      | (None, w) => (None, addCapacity (Int64.mul size (-1)) (with_Fs a w))
      end
  end.

Definition Name (a : t W) : string :=
  "capacityFs " ++ fmt_d (limitedSize a) ++ " - " ++ Fs_Name (Fs a).

End Methods.

End capacityFs.

(** ** [NewCapacityFs]: a [nil] interface value is [None]. *)

Definition NewCapacityFs {W F : Type} `{afero_Fs W F} (f : option W) (size : Z)
  : option (capacityFs.t W) * option error :=
  match f with
  | None => (None, Some (errorString "nil interface"))
  | Some f =>
      if size <? 0 then (None, Some (errorString "size less than 0"))
      else
        match CalculateSizeSum f with
        | (_, Some err) => (None, Some err)
        | (cachedSize, None) =>
            if cachedSize >? size then
              (None,
               Some (wrapError
                       (Error ErrNotEnoughCapacity ++ ": " ++ fmt_d cachedSize
                          ++ " > " ++ fmt_d size)
                       ErrNotEnoughCapacity))
            else
              (Some {| capacityFs.Fs := f;
                       capacityFs.limitedSize := size;
                       capacityFs.cachedSize := cachedSize |},
               None)
        end
  end.

(** ** Sequences of operations on a capacity filesystem

    A write names the file by the handle of the wrapped store that the
    decorator's handle embeds. *)

Inductive Op (F : Type) : Type :=
| OpCreate (name : string)
| OpMkdir (name : string) (perm : FileMode)
| OpMkdirAll (name : string) (perm : FileMode)
| OpOpen (name : string)
| OpWrite (fi : F) (p : list Byte.byte)
| OpWriteAt (fi : F) (p : list Byte.byte) (off : Z)
| OpTruncate (fi : F) (size : Z)
| OpRemove (name : string)
| OpRemoveAll (name : string).

Arguments OpCreate {F} name.
Arguments OpMkdir {F} name perm.
Arguments OpMkdirAll {F} name perm.
Arguments OpOpen {F} name.
Arguments OpRemove {F} name.
Arguments OpRemoveAll {F} name.

Section Run.
Context {W F : Type} `{afero_Fs W F}.

(** The error an operation returns and the state it leaves. *)
Definition step (op : Op F) (a : capacityFs.t W) : option error * capacityFs.t W :=
  match op with
  | OpCreate name => let '((_, err), a') := capacityFs.Create name a in (err, a')
  | OpMkdir name perm => capacityFs.Mkdir name perm a
  | OpMkdirAll name perm => capacityFs.MkdirAll name perm a
  | OpOpen name => let '((_, err), a') := capacityFs.Open name a in (err, a')
  | OpWrite fi p =>
      let '((_, err), a') := fileSize.Write (capacityFs.newFileSize fi) p a in (err, a')
  | OpWriteAt fi p off =>
      let '((_, err), a') := fileSize.WriteAt (capacityFs.newFileSize fi) p off a in
      (err, a')
  | OpTruncate fi size => fileSize.Truncate (capacityFs.newFileSize fi) size a
  | OpRemove name => capacityFs.Remove name a
  | OpRemoveAll name => capacityFs.RemoveAll name a
  end.

(** The state after [ops] when every one of them returns a [nil] error. *)
Fixpoint run (ops : list (Op F)) (a : capacityFs.t W) : option (capacityFs.t W) :=
  match ops with
  | [] => Some a
  | op :: ops' =>
      match step op a with
      | (None, a') => run ops' a'
      | (Some _, _) => None
      end
  end.

End Run.

(** ** A wrapped store that records the calls made on it

    The counterpart of the test doubles of the package's tests: it forwards
    every call to an inner store and keeps the list of the calls that can
    change the store, latest first. *)

Inductive Call (F : Type) : Type :=
| CallCreate (name : string)
| CallMkdir (name : string) (perm : FileMode)
| CallOpen (name : string)
| CallOpenFile (name : string) (flag : Z) (perm : FileMode)
| CallRemove (name : string)
| CallRemoveAll (name : string)
| CallWrite (fi : F) (p : list Byte.byte)
| CallWriteAt (fi : F) (p : list Byte.byte) (off : Z)
| CallTruncate (fi : F) (size : Z).

Arguments CallCreate {F} name.
Arguments CallMkdir {F} name perm.
Arguments CallOpen {F} name.
Arguments CallOpenFile {F} name flag perm.
Arguments CallRemove {F} name.
Arguments CallRemoveAll {F} name.

Record Logged (W F : Type) : Type := { inner : W; calls : list (Call F) }.

Section LoggedStore.
Context {W F : Type} `{afero_Fs W F}.

Definition logged {A : Type} (c : Call F) (op : W -> A * W) (l : Logged W F)
  : A * Logged W F :=
  let '(r, w) := op (inner l) in
  (r, {| inner := w; calls := c :: calls l |}).

#[global] Instance Logged_afero : afero_Fs (Logged W F) F := {
  Fs_Create := fun name => logged (CallCreate name) (Fs_Create name);
  Fs_Mkdir := fun name perm => logged (CallMkdir name perm) (Fs_Mkdir name perm);
  Fs_Open := fun name => logged (CallOpen name) (Fs_Open name);
  Fs_OpenFile := fun name flag perm =>
    logged (CallOpenFile name flag perm) (Fs_OpenFile name flag perm);
  Fs_Remove := fun name => logged (CallRemove name) (Fs_Remove name);
  Fs_RemoveAll := fun name => logged (CallRemoveAll name) (Fs_RemoveAll name);
  Fs_Stat := fun name l => Fs_Stat name (inner l);
  Fs_Name := fun l => Fs_Name (inner l);
  Fs_Walk := fun root l => Fs_Walk root (inner l);
  File_Write := fun fi p => logged (CallWrite fi p) (File_Write fi p);
  File_WriteAt := fun fi p off => logged (CallWriteAt fi p off) (File_WriteAt fi p off);
  File_Truncate := fun fi size => logged (CallTruncate fi size) (File_Truncate fi size)
}.

End LoggedStore.

(** ** An in-memory store

    A small store used as the wrapped filesystem of closed instances; the
    properties of the decorator are proved for every store, not from this
    one.  It is a tree of names over a table of file contents, and follows
    [afero.MemMapFs], the store of the package's tests, in what the
    instances exercise:
    - a directory reports the size 42 (the tests count 42 per directory),
      a file the number of its bytes;
    - [Create] and [Mkdir] make the parent directories that are missing;
      [Create] binds the name to a new, empty file, whatever the name was
      bound to;
    - [Remove] does not ask a directory to be empty, [RemoveAll] of a name
      that is not there returns [nil];
    - [Open] gives a read-only handle; [OpenFile] gives a read-only handle
      for the flag [O_RDONLY] alone, honours [O_CREATE], [O_EXCL] and
      [O_APPEND], and truncates for [O_TRUNC] only together with [O_RDWR] or
      [O_WRONLY];
    - a handle holds its file, not its name: it keeps reading and writing
      the same contents after the name is removed or bound to another file;
    - [Write] pads with zero bytes when the handle is past the end,
      [WriteAt] moves the handle to the offset and then writes, [Truncate]
      cuts or pads with zero bytes.
    A path is the list of the non-empty components of its name.  Being a
    tree, the store unbinds what is below a removed directory together with
    it, makes no entry under a file, and keeps its root; it lists a
    directory in the order its entries were made.  Handles are numbered in
    the order they are opened and are never closed. *)

Module MemFs.

#[warnings="-register-all"]
Inductive node : Type :=
| File (id : nat)
| Dir (entries : list (string * node)).

(** An open file: the number of its contents in the table ([None] for a
    directory), the offset it is at, and whether it may write. *)
Record handle : Type := { hfile : option nat; hpos : nat; hreadonly : bool }.

Record t : Type := {
  root : node;
  files : list (list Byte.byte);
  handles : list handle
}.

Definition empty : t := {| root := Dir []; files := []; handles := [] |}.

Definition ErrNotExist : error := errorString "file does not exist".
Definition ErrExist : error := errorString "file already exists".
Definition ErrIsDir : error := errorString "is a directory".
Definition ErrNotDir : error := errorString "not a directory".
Definition ErrClosed : error := errorString "File is closed".
Definition ErrReadOnly : error := errorString "file handle is read only".
Definition ErrOutOfRange : error := errorString "out of range".
Definition ErrInvalid : error := errorString "invalid argument".

Definition O_RDONLY : Z := 0.
Definition O_WRONLY : Z := 1.
Definition O_RDWR : Z := 2.
Definition O_CREATE : Z := 64.
Definition O_EXCL : Z := 128.
Definition O_TRUNC : Z := 512.
Definition O_APPEND : Z := 1024.

Definition has (flag bit : Z) : bool := negb (Z.eqb (Z.land flag bit) 0).

Definition dirSize : Z := 42.

Definition components (name : string) : list string :=
  List.filter (fun c => negb (String.eqb c "")) (strings.Split name "/").

(** The contents a file number stands for. *)
Definition content (fs : list (list Byte.byte)) (id : nat) : list Byte.byte :=
  nth id fs [].

Definition info (fs : list (list Byte.byte)) (n : node) : FileInfo :=
  match n with
  | File id => {| Size := Z.of_nat (List.length (content fs id)); IsDir := false |}
  | Dir _ => {| Size := dirSize; IsDir := true |}
  end.

(** Entries of a directory. *)
Fixpoint find (c : string) (es : list (string * node)) : option node :=
  match es with
  | [] => None
  | (c', m) :: es' => if String.eqb c c' then Some m else find c es'
  end.

Fixpoint set (c : string) (m : node) (es : list (string * node))
  : list (string * node) :=
  match es with
  | [] => [(c, m)]
  | (c', m') :: es' =>
      if String.eqb c c' then (c, m) :: es' else (c', m') :: set c m es'
  end.

Fixpoint unset (c : string) (es : list (string * node)) : list (string * node) :=
  match es with
  | [] => []
  | (c', m') :: es' => if String.eqb c c' then es' else (c', m') :: unset c es'
  end.

(** The node at a path. *)
Fixpoint lookup (p : list string) (n : node) : option node :=
  match p with
  | [] => Some n
  | c :: cs =>
      match n with
      | Dir es =>
          match find c es with
          | Some m => lookup cs m
          | None => None
          end
      | File _ => None
      end
  end.

(** Bind the path to [new], making the directories that are missing on the
    way; no entry can be made under a file, and the root cannot be bound. *)
Fixpoint bind (p : list string) (new : node) (n : node) : option node :=
  match p with
  | [] => None
  | c :: cs =>
      match n with
      | Dir es =>
          match cs with
          | [] => Some (Dir (set c new es))
          | _ :: _ =>
              match bind cs new (match find c es with
                                 | Some m => m
                                 | None => Dir []
                                 end) with
              | Some m' => Some (Dir (set c m' es))
              | None => None
              end
          end
      | File _ => None
      end
  end.

(** Unbind the path, with everything below it. *)
Fixpoint del (p : list string) (n : node) : option node :=
  match p with
  | [] => None
  | c :: cs =>
      match n with
      | Dir es =>
          match find c es with
          | Some m =>
              match cs with
              | [] => Some (Dir (unset c es))
              | _ :: _ =>
                  match del cs m with
                  | Some m' => Some (Dir (set c m' es))
                  | None => None
                  end
              end
          | None => None
          end
      | File _ => None
      end
  end.

(** The exact sum of the sizes of a node and of everything below it. *)
Fixpoint total_under (fs : list (list Byte.byte)) (n : node) : Z :=
  match n with
  | File _ => Size (info fs n)
  | Dir es =>
      dirSize
      + (fix total_entries (es : list (string * node)) : Z :=
           match es with
           | [] => 0
           | (_, m) :: es' => total_under fs m + total_entries es'
           end) es
  end.

(** The calls of a walk over a node that sits at [path]. *)
Fixpoint walk (fs : list (list Byte.byte)) (path : string) (n : node) : list Visit :=
  Entry path (info fs n)
  :: match n with
     | File _ => []
     | Dir es =>
         (fix walk_entries (es : list (string * node)) : list Visit :=
            match es with
            | [] => []
            | (c, m) :: es' =>
                (walk fs (filepath_Join path c) m ++ walk_entries es')%list
            end) es
     end.

(** File contents. *)
Definition write_at (data : list Byte.byte) (off : nat) (p : list Byte.byte)
  : list Byte.byte :=
  (firstn off (data ++ repeat Byte.x00 (off - List.length data))
     ++ p ++ skipn (off + List.length p) data)%list.

Definition truncate_to (data : list Byte.byte) (size : nat) : list Byte.byte :=
  firstn size (data ++ repeat Byte.x00 (size - List.length data))%list.

Fixpoint set_nth {A : Type} (i : nat) (x : A) (l : list A) : list A :=
  match l, i with
  | [], _ => []
  | _ :: l', O => x :: l'
  | y :: l', S i' => y :: set_nth i' x l'
  end.

(** The operations of the store. *)
Definition open_handle (h : handle) (w : t) : (nat + error) * t :=
  (inl (List.length (handles w)),
   {| root := root w; files := files w; handles := (handles w ++ [h])%list |}).

Definition Stat (name : string) (w : t) : FileInfo + error :=
  match lookup (components name) (root w) with
  | Some n => inl (info (files w) n)
  | None => inr ErrNotExist
  end.

(** The store with the path bound to a new, empty file. *)
Definition with_new_file (p : list string) (w : t) : option t :=
  match bind p (File (List.length (files w))) (root w) with
  | Some r => Some {| root := r; files := (files w ++ [[]])%list; handles := handles w |}
  | None => None
  end.

Definition Create (name : string) (w : t) : (nat + error) * t :=
  match with_new_file (components name) w with
  | Some w' =>
      open_handle {| hfile := Some (List.length (files w)); hpos := 0;
                     hreadonly := false |} w'
  | None => (inr ErrNotDir, w)
  end.

Definition Mkdir (name : string) (perm : FileMode) (w : t) : option error * t :=
  let p := components name in
  match lookup p (root w) with
  | Some _ => (Some ErrExist, w)
  | None =>
      match bind p (Dir []) (root w) with
      | Some r => (None, {| root := r; files := files w; handles := handles w |})
      | None => (Some ErrNotDir, w)
      end
  end.

Definition Open (name : string) (w : t) : (nat + error) * t :=
  match lookup (components name) (root w) with
  | Some (File id) =>
      open_handle {| hfile := Some id; hpos := 0; hreadonly := true |} w
  | Some (Dir _) => open_handle {| hfile := None; hpos := 0; hreadonly := true |} w
  | None => (inr ErrNotExist, w)
  end.

(** Open the file [id] as the flags ask. *)
Definition open_as (id : nat) (flag : Z) (w : t) : (nat + error) * t :=
  let pos := if has flag O_APPEND then List.length (content (files w) id) else O in
  let fs :=
    if has flag O_TRUNC && (has flag O_RDWR || has flag O_WRONLY)
    then set_nth id [] (files w)
    else files w in
  open_handle {| hfile := Some id; hpos := pos; hreadonly := Z.eqb flag O_RDONLY |}
    {| root := root w; files := fs; handles := handles w |}.

Definition OpenFile (name : string) (flag : Z) (perm : FileMode) (w : t)
  : (nat + error) * t :=
  let p := components name in
  match lookup p (root w) with
  | Some n =>
      if has flag O_EXCL then (inr ErrExist, w)
      else
        match n with
        | File id => open_as id flag w
        | Dir _ =>
            open_handle {| hfile := None; hpos := 0;
                           hreadonly := Z.eqb flag O_RDONLY |} w
        end
  | None =>
      if has flag O_CREATE then
        match with_new_file p w with
        | Some w' => open_as (List.length (files w)) flag w'
        | None => (inr ErrNotDir, w)
        end
      else (inr ErrNotExist, w)
  end.

Definition Remove (name : string) (w : t) : option error * t :=
  let p := components name in
  match lookup p (root w) with
  | None => (Some ErrNotExist, w)
  | Some _ =>
      match del p (root w) with
      | Some r => (None, {| root := r; files := files w; handles := handles w |})
      | None => (Some ErrInvalid, w)
      end
  end.

Definition RemoveAll (name : string) (w : t) : option error * t :=
  let p := components name in
  match lookup p (root w) with
  | None => (None, w)
  | Some _ =>
      match del p (root w) with
      | Some r => (None, {| root := r; files := files w; handles := handles w |})
      | None => (Some ErrInvalid, w)
      end
  end.

Definition Walk_from (root_name : string) (w : t) : list Visit :=
  match lookup (components root_name) (root w) with
  | Some n => walk (files w) root_name n
  | None => [Failure root_name None ErrNotExist]
  end.

Definition Write (fi : nat) (p : list Byte.byte) (w : t) : (Z * option error) * t :=
  match nth_error (handles w) fi with
  | Some h =>
      if hreadonly h then ((0, Some ErrReadOnly), w)
      else
        match hfile h with
        | Some id =>
            ((Z.of_nat (List.length p), None),
             {| root := root w;
                files := set_nth id (write_at (content (files w) id) (hpos h) p)
                           (files w);
                handles := set_nth fi
                             {| hfile := Some id; hpos := hpos h + List.length p;
                                hreadonly := false |}
                             (handles w) |})
        | None => ((0, Some ErrIsDir), w)
        end
  | None => ((0, Some ErrClosed), w)
  end.

(** [mem.File.WriteAt] stores the offset in the handle and calls [Write];
    with a negative offset that call panics, here it fails. *)
Definition WriteAt (fi : nat) (p : list Byte.byte) (off : Z) (w : t)
  : (Z * option error) * t :=
  match nth_error (handles w) fi with
  | Some h =>
      if off <? 0 then ((0, Some ErrInvalid), w)
      else
        Write fi p
          {| root := root w;
             files := files w;
             handles := set_nth fi
                          {| hfile := hfile h; hpos := Z.to_nat off;
                             hreadonly := hreadonly h |}
                          (handles w) |}
  | None => ((0, Some ErrClosed), w)
  end.

Definition Truncate (fi : nat) (size : Z) (w : t) : option error * t :=
  match nth_error (handles w) fi with
  | Some h =>
      if hreadonly h then (Some ErrReadOnly, w)
      else if size <? 0 then (Some ErrOutOfRange, w)
      else
        match hfile h with
        | Some id =>
            (None,
             {| root := root w;
                files := set_nth id (truncate_to (content (files w) id) (Z.to_nat size))
                           (files w);
                handles := handles w |})
        | None => (Some ErrIsDir, w)
        end
  | None => (Some ErrClosed, w)
  end.

#[global] Instance MemFs_afero : afero_Fs t nat := {
  Fs_Create := Create;
  Fs_Mkdir := Mkdir;
  Fs_Open := Open;
  Fs_OpenFile := OpenFile;
  Fs_Remove := Remove;
  Fs_RemoveAll := RemoveAll;
  Fs_Stat := Stat;
  Fs_Name := fun _ => "MemMapFS";
  Fs_Walk := Walk_from;
  File_Write := Write;
  File_WriteAt := WriteAt;
  File_Truncate := Truncate
}.

(** The exact size of the tree of the store. *)
Definition total (w : t) : Z := total_under (files w) (root w).

(** The length of the file of a handle. *)
Definition file_length (fi : nat) (w : t) : option nat :=
  match nth_error (handles w) fi with
  | Some h =>
      match hfile h with
      | Some id => Some (List.length (content (files w) id))
      | None => None
      end
  | None => None
  end.

End MemFs.

(** ** Closed examples: stores and decorators over them *)

Module Examples.

Definition abc : list Byte.byte := [Byte.x61; Byte.x62; Byte.x63].

(** The store with the single empty file [f], open as handle 0. *)
Definition store_f : MemFs.t := snd (MemFs.Create "f" MemFs.empty).

(** The same store, recording calls. *)
Definition logged_f : Logged MemFs.t nat := {| inner := store_f; calls := [] |}.

Definition over {W : Type} (w : W) (limit cached : Z) : capacityFs.t W :=
  {| capacityFs.Fs := w;
     capacityFs.limitedSize := limit;
     capacityFs.cachedSize := cached |}.

(** The store with the file [f] holding [abc], open as handle 0. *)
Definition store_abc : MemFs.t := snd (MemFs.Write 0%nat abc store_f).

(** The store with the directory [d] and the empty file [d/x] in it. *)
Definition store_d : MemFs.t :=
  snd (MemFs.Create "d/x" (snd (MemFs.Mkdir "d" 493 MemFs.empty))).

(** The empty store, recording calls. *)
Definition logged_empty : Logged MemFs.t nat := {| inner := MemFs.empty; calls := [] |}.

(** The store with the directories [dir1] and [dir1/dir2]. *)
Definition store_dirs : MemFs.t :=
  snd (MemFs.Mkdir "dir1/dir2" 493 (snd (MemFs.Mkdir "dir1" 493 MemFs.empty))).

(** The store with the directories [d] and [d/e] and, in [d/e], the file
    [ok.txt] of five bytes. *)
Definition store_tree : MemFs.t :=
  snd (MemFs.Write 0%nat (abc ++ [Byte.x64; Byte.x65])
         (snd (MemFs.Create "d/e/ok.txt"
                 (snd (MemFs.Mkdir "d/e" 493 (snd (MemFs.Mkdir "d" 493 MemFs.empty))))))).

(** The store with the directory [dir1], recording calls. *)
Definition logged_dir1 : Logged MemFs.t nat :=
  {| inner := snd (MemFs.Mkdir "dir1" 493 MemFs.empty); calls := [] |}.

(** A decorator over the empty store, as [NewCapacityFs] returns it for the
    limit 1024. *)
Definition fresh : capacityFs.t MemFs.t := over MemFs.empty 1024 42.

Definition fifty : list Byte.byte := repeat Byte.x61 50.

(** A decorator over the empty store with room for three directories and a
    few bytes, and calls that each change the tree by what they are charged:
    among them a truncation of six bytes to three, calls the store refuses
    (a directory that is there, a write through a read-only handle, a name
    that is not there) and a directory the budget refuses. *)
Definition tight : capacityFs.t MemFs.t := over MemFs.empty 200 42.

Definition matching : list (Op nat) :=
  [OpMkdirAll "dir1/dir2" 493; OpCreate "dir1/f"; OpWrite 0%nat abc;
   OpWrite 0%nat abc; OpTruncate 0%nat 3; OpWriteAt 0%nat abc 3;
   OpMkdir "dir1" 493; OpOpen "dir1/f"; OpWrite 1%nat abc;
   OpRemoveAll "dir1/dir2"; OpRemove "dir1/f"; OpRemove "nope";
   OpMkdir "a" 493; OpMkdir "b" 493; OpMkdir "c" 493].

(** Calls that are charged at least what they add to the tree: a write over
    bytes that are there, truncations that free more than they are charged
    for, a file created again under its name. *)
Definition overcharged : list (Op nat) :=
  [OpCreate "f"; OpWrite 0%nat fifty; OpWriteAt 0%nat abc 10; OpTruncate 0%nat 20;
   OpCreate "f"; OpWrite 1%nat abc; OpMkdir "d" 493; OpRemoveAll "d";
   OpTruncate 1%nat 0; OpRemove "f"].

Definition unexpectedEOF : error := errorString "unexpected EOF".

(** A store whose creations, openings and removals all fail, as [badFs] of
    the tests; what it does not override it leaves to the store it embeds. *)
Record badFs : Type := { embedded : MemFs.t }.

#[global] Instance badFs_afero : afero_Fs badFs nat := {
  Fs_Create := fun _ s => (inr unexpectedEOF, s);
  Fs_Mkdir := fun _ _ s => (Some unexpectedEOF, s);
  Fs_Open := fun _ s => (inr unexpectedEOF, s);
  Fs_OpenFile := fun _ _ _ s => (inr unexpectedEOF, s);
  Fs_Remove := fun _ s => (Some unexpectedEOF, s);
  Fs_RemoveAll := fun _ s => (Some unexpectedEOF, s);
  Fs_Stat := fun name s => MemFs.Stat name (embedded s);
  Fs_Name := fun s => Fs_Name (embedded s);
  Fs_Walk := fun root s => MemFs.Walk_from root (embedded s);
  File_Write := fun fi p s =>
    let '(r, w) := MemFs.Write fi p (embedded s) in (r, {| embedded := w |});
  File_WriteAt := fun fi p off s =>
    let '(r, w) := MemFs.WriteAt fi p off (embedded s) in (r, {| embedded := w |});
  File_Truncate := fun fi size s =>
    let '(r, w) := MemFs.Truncate fi size (embedded s) in (r, {| embedded := w |})
}.

Definition bad_empty : badFs := {| embedded := MemFs.empty |}.

(** A store whose [Stat] fails for one name, as [failStatFs] of the tests. *)
Record failStat : Type := { under : MemFs.t; failing : string }.

#[global] Instance failStat_afero : afero_Fs failStat nat := {
  Fs_Create := fun name s =>
    let '(r, w) := MemFs.Create name (under s) in
    (r, {| under := w; failing := failing s |});
  Fs_Mkdir := fun name perm s =>
    let '(r, w) := MemFs.Mkdir name perm (under s) in
    (r, {| under := w; failing := failing s |});
  Fs_Open := fun name s =>
    let '(r, w) := MemFs.Open name (under s) in
    (r, {| under := w; failing := failing s |});
  Fs_OpenFile := fun name flag perm s =>
    let '(r, w) := MemFs.OpenFile name flag perm (under s) in
    (r, {| under := w; failing := failing s |});
  Fs_Remove := fun name s =>
    let '(r, w) := MemFs.Remove name (under s) in
    (r, {| under := w; failing := failing s |});
  Fs_RemoveAll := fun name s =>
    let '(r, w) := MemFs.RemoveAll name (under s) in
    (r, {| under := w; failing := failing s |});
  Fs_Stat := fun name s =>
    if String.eqb (failing s) name then inr unexpectedEOF
    else MemFs.Stat name (under s);
  Fs_Name := fun s => Fs_Name (under s);
  Fs_Walk := fun root s =>
    List.map
      (fun v =>
         match v with
         | Entry path _ =>
             if String.eqb (failing s) path
             then Failure path None unexpectedEOF
             else v
         | _ => v
         end)
      (MemFs.Walk_from root (under s));
  File_Write := fun fi p s =>
    let '(r, w) := MemFs.Write fi p (under s) in
    (r, {| under := w; failing := failing s |});
  File_WriteAt := fun fi p off s =>
    let '(r, w) := MemFs.WriteAt fi p off (under s) in
    (r, {| under := w; failing := failing s |});
  File_Truncate := fun fi size s =>
    let '(r, w) := MemFs.Truncate fi size (under s) in
    (r, {| under := w; failing := failing s |})
}.

(** The stores of the closed instances whose [Stat] fails. *)
Definition failing_f : failStat := {| under := MemFs.empty; failing := "f" |}.
Definition failing_root : failStat := {| under := MemFs.empty; failing := "" |}.
Definition failing_x : failStat := {| under := store_d; failing := "d/x" |}.
Definition failing_abc : failStat := {| under := store_abc; failing := "f" |}.

End Examples.

(** ** The second listing of the package

    [src/unnamed/part_000] holds the package twice.  In its second listing
    [Create] and [Mkdir] roll back through [deferError]; everything else is
    as in the first. *)

Module capacityFs2.

Section Methods.
Context {W F : Type} `{afero_Fs W F}.

Definition Create (name : string) (a : capacityFs.t W)
  : (option (fileSize.t (capacityFs.t W)) * option error) * capacityFs.t W :=
  match Fs_Create name (capacityFs.Fs a) with
  | (inr err, w) => ((None, Some err), capacityFs.with_Fs a w)
  | (inl fi, w) =>
      let fi' := capacityFs.newFileSize fi in
      match capacityFs.statAndCheckSize name (capacityFs.with_Fs a w) with
      | (Some err, a1) =>
          ((Some fi', Some err), capacityFs.deferError name (Some err) a1)
      | (None, a1) => ((Some fi', None), a1)
      end
  end.

Definition Mkdir (name : string) (perm : FileMode) (a : capacityFs.t W)
  : option error * capacityFs.t W :=
  match Fs_Mkdir name perm (capacityFs.Fs a) with
  | (Some err, w) => (Some err, capacityFs.with_Fs a w)
  | (None, w) =>
      match capacityFs.statAndCheckSize name (capacityFs.with_Fs a w) with
      | (Some err, a1) => (Some err, capacityFs.deferError name (Some err) a1)
      | (None, a1) => (None, a1)
      end
  end.

End Methods.

End capacityFs2.

(** ** Sequences of operations, whatever they return *)

Section Exec.
Context {W F : Type} `{afero_Fs W F}.

(** The state after [ops], each run in the state the one before left,
    whether it returned an error or not. *)
Fixpoint exec (ops : list (Op F)) (a : capacityFs.t W) : capacityFs.t W :=
  match ops with
  | [] => a
  | op :: ops' => exec ops' (snd (step op a))
  end.

(** Every operation of [ops] satisfies [Q] in the state it starts from. *)
Fixpoint each (Q : Op F -> capacityFs.t W -> Prop) (ops : list (Op F))
  (a : capacityFs.t W) : Prop :=
  match ops with
  | [] => True
  | op :: ops' => Q op a /\ each Q ops' (snd (step op a))
  end.

(** [P] holds of the state every operation of [ops] leaves. *)
Fixpoint always (P : capacityFs.t W -> Prop) (ops : list (Op F))
  (a : capacityFs.t W) : Prop :=
  match ops with
  | [] => True
  | op :: ops' => P (snd (step op a)) /\ always P ops' (snd (step op a))
  end.

End Exec.

(** ** What a walk shows to the Size Scanner *)

(** The sizes of the entries a walk visits before its first failure, and
    that failure. *)
Fixpoint counted (vs : list Visit) : list Z :=
  match vs with
  | [] => []
  | Entry _ info :: vs' => Size info :: counted vs'
  | Failure _ _ _ :: _ => []
  end.

Fixpoint first_failure (vs : list Visit) : option error :=
  match vs with
  | [] => None
  | Entry _ _ :: vs' => first_failure vs'
  | Failure _ _ err :: _ => Some err
  end.

Definition sum (l : list Z) : Z := List.fold_right Z.add 0 l.

(** ** Definitions after the words of the specification *)

(** The length of a payload as the handle passes it to the budget check. *)
Definition payload (p : list Byte.byte) : Z := Int64.of_int (Z.of_nat (List.length p)).

(** The non-empty prefixes of a list, shortest first. *)
Fixpoint inits {A : Type} (l : list A) : list (list A) :=
  match l with
  | [] => []
  | x :: l' => [x] :: List.map (cons x) (inits l')
  end.

(** "Decompose [path] into its ordered list of prefix components": the
    prefixes of the path that end where a separator begins, shortest first,
    and the path itself; ["a/b/c"] gives ["a"], ["a/b"], ["a/b/c"].  [read]
    is the part of the path already passed. *)
Fixpoint prefixes_from (read rest : string) : list string :=
  match rest with
  | EmptyString => [read]
  | String c rest' =>
      if Ascii.eqb c "/" then read :: prefixes_from (read ++ "/") rest'
      else prefixes_from (read ++ String c "") rest'
  end.

Definition path_prefixes (path : string) : list string := prefixes_from "" path.

Section Accounting.
Context {W F : Type} `{afero_Fs W F}.

(** The decorator [a] with its store in the state [w] and [current] as its
    cached total. *)
Definition budgeted (a : capacityFs.t W) (w : W) (current : Z) : capacityFs.t W :=
  {| capacityFs.Fs := w;
     capacityFs.limitedSize := capacityFs.limitedSize a;
     capacityFs.cachedSize := current |}.

(** "[hasCapacity(n)]: returns [n + current <= limit]", on 64-bit integers. *)
Definition has_capacity (n : Z) (a : capacityFs.t W) : bool :=
  Int64.wrap (n + capacityFs.cachedSize a) <=? capacityFs.limitedSize a.

(** A "Capacity-Limited File Handle" around the file [fi] of the wrapped
    store: a write is refused without a call on the store when the budget
    has no room for the payload's length, and is otherwise handed to [fi]
    and charged the count [fi] reports; a truncation is handed to [fi] and,
    when it succeeds, charged minus the new size. *)
Definition capacity_limited (fi : F) (h : fileSize.t (capacityFs.t W)) : Prop :=
  forall (p : list Byte.byte) (off size : Z) (b : capacityFs.t W),
    fileSize.Write h p b
    = (if has_capacity (payload p) b
       then (fst (File_Write fi p (capacityFs.Fs b)),
             budgeted b (snd (File_Write fi p (capacityFs.Fs b)))
               (Int64.wrap
                  (capacityFs.cachedSize b
                   + Int64.of_int (fst (fst (File_Write fi p (capacityFs.Fs b)))))))
       else ((0, Some ErrNotEnoughCapacity), b))
    /\ fileSize.WriteAt h p off b
       = (if has_capacity (payload p) b
          then (fst (File_WriteAt fi p off (capacityFs.Fs b)),
                budgeted b (snd (File_WriteAt fi p off (capacityFs.Fs b)))
                  (Int64.wrap
                     (capacityFs.cachedSize b
                      + Int64.of_int
                          (fst (fst (File_WriteAt fi p off (capacityFs.Fs b)))))))
          else ((0, Some ErrNotEnoughCapacity), b))
    /\ fileSize.Truncate h size b
       = (fst (File_Truncate fi size (capacityFs.Fs b)),
          budgeted b (snd (File_Truncate fi size (capacityFs.Fs b)))
            (match fst (File_Truncate fi size (capacityFs.Fs b)) with
             | None => Int64.wrap (capacityFs.cachedSize b - size)
             | Some _ => capacityFs.cachedSize b
             end)).

(** "For each prefix, if it already exists (successful stat), skip it;
    otherwise invoke this filesystem's own [mkdir] on that single prefix and
    stop at the first failure, propagating it", with [mkdir] written out on
    the wrapped store: make the directory; stat it; if it does not fit,
    remove it and fail with [CapacityExceeded]; otherwise charge its stat'ed
    size.  The error returned and the state left, from the prefixes still to
    visit. *)
Fixpoint make_missing (vs : list string) (perm : FileMode) (a : capacityFs.t W)
  : option error * capacityFs.t W :=
  match vs with
  | [] => (None, a)
  | v :: vs' =>
      match Fs_Stat v (capacityFs.Fs a) with
      | inl _ => make_missing vs' perm a
      | inr _ =>
          match Fs_Mkdir v perm (capacityFs.Fs a) with
          | (Some err, w) => (Some err, budgeted a w (capacityFs.cachedSize a))
          | (None, w) =>
              match Fs_Stat v w with
              | inl stat =>
                  if has_capacity (Size stat) a then
                    make_missing vs' perm
                      (budgeted a w (Int64.wrap (capacityFs.cachedSize a + Size stat)))
                  else
                    (Some ErrNotEnoughCapacity,
                     budgeted a (snd (Fs_Remove v w)) (capacityFs.cachedSize a))
              | inr _ => make_missing vs' perm (budgeted a w (capacityFs.cachedSize a))
              end
          end
      end
  end.

(** The three outcomes of a removal whose wrapped call is [rm]. *)
Definition removal_outcomes (rm : string -> W -> option error * W)
  (removal : string -> capacityFs.t W -> option error * capacityFs.t W)
  (name : string) (a : capacityFs.t W) : Prop :=
  (forall size err,
     capacityFs.beforeRemove name a = (size, Some err) ->
     removal name a = (Some err, a))
  /\ (forall size err w,
        capacityFs.beforeRemove name a = (size, None) ->
        rm name (capacityFs.Fs a) = (Some err, w) ->
        removal name a
        = (Some err,
           {| capacityFs.Fs := w;
              capacityFs.limitedSize := capacityFs.limitedSize a;
              capacityFs.cachedSize := capacityFs.cachedSize a |}))
  /\ (forall size w,
        capacityFs.beforeRemove name a = (size, None) ->
        rm name (capacityFs.Fs a) = (None, w) ->
        removal name a
        = (None,
           {| capacityFs.Fs := w;
              capacityFs.limitedSize := capacityFs.limitedSize a;
              capacityFs.cachedSize := Int64.wrap (capacityFs.cachedSize a - size) |})).

(** *** What each operation is charged

    The amount an operation adds to the cached total, read off the results
    of the calls on the wrapped store. *)

(** A creation that left the store in the state [w]: the size [Stat]
    reports for the new entry, when it can be stat'ed and fits. *)
Definition charge_created (name : string) (w : W) (a : capacityFs.t W) : Z :=
  match Fs_Stat name w with
  | inl stat => if has_capacity (Size stat) a then Size stat else 0
  | inr _ => 0
  end.

(** The size a removal is to give back: the stat'ed size of a file, the
    Size Scanner's sum under a directory, 0 for a name that cannot be
    stat'ed. *)
Definition freed_size (name : string) (w : W) : Z * option error :=
  match Fs_Stat name w with
  | inl stat =>
      if IsDir stat then CalculateSizeSum (NewBasePathFs w name)
      else (Size stat, None)
  | inr _ => (0, None)
  end.

Definition charge_removed (rm : string -> W -> option error * W) (name : string)
  (a : capacityFs.t W) : Z :=
  match freed_size name (capacityFs.Fs a), rm name (capacityFs.Fs a) with
  | (size, None), (None, _) => - size
  | _, _ => 0
  end.

(** The directories [mkdirAll] makes and keeps, one after the other. *)
Fixpoint charge_prefixes (vs : list string) (perm : FileMode) (a : capacityFs.t W)
  : Z :=
  match vs with
  | [] => 0
  | v :: vs' =>
      match Fs_Stat v (capacityFs.Fs a) with
      | inl _ => charge_prefixes vs' perm a
      | inr _ =>
          match Fs_Mkdir v perm (capacityFs.Fs a) with
          | (Some _, _) => 0
          | (None, w) =>
              match Fs_Stat v w with
              | inl stat =>
                  if has_capacity (Size stat) a then
                    Size stat
                    + charge_prefixes vs' perm
                        (budgeted a w (Int64.wrap (capacityFs.cachedSize a + Size stat)))
                  else 0
              | inr _ => charge_prefixes vs' perm (budgeted a w (capacityFs.cachedSize a))
              end
          end
      end
  end.

Definition charge (op : Op F) (a : capacityFs.t W) : Z :=
  match op with
  | OpCreate name =>
      match Fs_Create name (capacityFs.Fs a) with
      | (inl _, w) => charge_created name w a
      | (inr _, _) => 0
      end
  | OpMkdir name perm =>
      match Fs_Mkdir name perm (capacityFs.Fs a) with
      | (None, w) => charge_created name w a
      | (Some _, _) => 0
      end
  | OpMkdirAll name perm => charge_prefixes (path_prefixes name) perm a
  | OpOpen _ => 0
  | OpWrite fi p =>
      if has_capacity (payload p) a
      then Int64.of_int (fst (fst (File_Write fi p (capacityFs.Fs a))))
      else 0
  | OpWriteAt fi p off =>
      if has_capacity (payload p) a
      then Int64.of_int (fst (fst (File_WriteAt fi p off (capacityFs.Fs a))))
      else 0
  | OpTruncate fi size =>
      match File_Truncate fi size (capacityFs.Fs a) with
      | (None, _) => - size
      | (Some _, _) => 0
      end
  | OpRemove name => charge_removed Fs_Remove name a
  | OpRemoveAll name => charge_removed Fs_RemoveAll name a
  end.

(** What a sequence of operations is charged, each of them in the state the
    one before left. *)
Fixpoint charge_all (ops : list (Op F)) (a : capacityFs.t W) : Z :=
  match ops with
  | [] => 0
  | op :: ops' => charge op a + charge_all ops' (snd (step op a))
  end.

(** *** The cached total and the tree *)

(** The sum the Size Scanner finds over the tree of the wrapped store. *)
Definition scanned (a : capacityFs.t W) : Z :=
  fst (CalculateSizeSum (capacityFs.Fs a)).

(** "The cached total equals the Size Scanner's fresh recursive sum." *)
Definition in_step (a : capacityFs.t W) : Prop :=
  CalculateSizeSum (capacityFs.Fs a) = (capacityFs.cachedSize a, None).

(** The operation changes the Size Scanner's sum by exactly what it is
    charged (64-bit), and the scan of the tree it leaves does not fail. *)
Definition grows_by_charge (op : Op F) (a : capacityFs.t W) : Prop :=
  CalculateSizeSum (capacityFs.Fs (snd (step op a)))
  = (Int64.wrap (scanned a + charge op a), None).

(** The scan succeeds, and its sum is not negative and at most the cached
    total, a 64-bit value. *)
Definition covered (a : capacityFs.t W) : Prop :=
  snd (CalculateSizeSum (capacityFs.Fs a)) = None
  /\ 0 <= scanned a <= capacityFs.cachedSize a
  /\ capacityFs.cachedSize a <= Int64.max_signed.

(** The operation changes the Size Scanner's sum by no more than what it is
    charged, leaves a tree whose scan succeeds with a sum that is not
    negative, and its charge does not take the cached total past the
    largest 64-bit value. *)
Definition grows_within_charge (op : Op F) (a : capacityFs.t W) : Prop :=
  snd (CalculateSizeSum (capacityFs.Fs (snd (step op a)))) = None
  /\ 0 <= scanned (snd (step op a))
  /\ scanned (snd (step op a)) - scanned a <= charge op a
  /\ capacityFs.cachedSize a + charge op a <= Int64.max_signed.

End Accounting.

(** * Properties *)

(** ** 64-bit arithmetic *)

Lemma wrap_in_range (z : Z) : Int64.in_range (Int64.wrap z).
Proof.
  unfold Int64.in_range, Int64.wrap, Int64.min_signed, Int64.max_signed.
  assert (Hm : 0 < Int64.modulus) by reflexivity.
  pose proof (Z.mod_pos_bound (z + Int64.half_modulus) Int64.modulus Hm) as Hb.
  assert (Hh : Int64.modulus = 2 * Int64.half_modulus) by reflexivity.
  lia.
Qed.

Lemma wrap_small (z : Z) : Int64.in_range z -> Int64.wrap z = z.
Proof.
  unfold Int64.in_range, Int64.wrap, Int64.min_signed, Int64.max_signed.
  intros Hz.
  assert (Hh : Int64.modulus = 2 * Int64.half_modulus) by reflexivity.
  rewrite Z.mod_small; lia.
Qed.

Lemma wrap_wrap (z : Z) : Int64.wrap (Int64.wrap z) = Int64.wrap z.
Proof. apply wrap_small, wrap_in_range. Qed.

Lemma wrap_add_l (x y : Z) : Int64.wrap (Int64.wrap x + y) = Int64.wrap (x + y).
Proof.
  unfold Int64.wrap. f_equal.
  replace ((x + Int64.half_modulus) mod Int64.modulus - Int64.half_modulus + y
           + Int64.half_modulus)
    with ((x + Int64.half_modulus) mod Int64.modulus + y) by lia.
  rewrite Zplus_mod_idemp_l. f_equal. lia.
Qed.

Lemma wrap_add_r (x y : Z) : Int64.wrap (x + Int64.wrap y) = Int64.wrap (x + y).
Proof. rewrite Z.add_comm, wrap_add_l. f_equal. lia. Qed.

Lemma add_neg (x size : Z) :
  Int64.add x (Int64.mul size (-1)) = Int64.wrap (x - size).
Proof.
  unfold Int64.add, Int64.mul. rewrite wrap_add_r. f_equal. lia.
Qed.

(** The budget check, as arithmetic. *)
Lemma hasEnoughCapacity_spec {W : Type} (size : Z) (a : capacityFs.t W) :
  capacityFs.hasEnoughCapacity size a = true
  <-> Int64.wrap (size + capacityFs.cachedSize a) <= capacityFs.limitedSize a.
Proof. unfold capacityFs.hasEnoughCapacity, Int64.add. apply Z.leb_le. Qed.

(** ** The file handle *)

Section FileHandle.
Context {W F : Type} `{afero_Fs W F}.

(** C2.  [Write] on a capacity-limited handle.  When the budget check on
    the payload's length fails, the call returns [(0, ErrNotEnoughCapacity)]
    and the whole state is what it was: the wrapped store saw no call (a
    store that records its calls has the same record) and the cached total
    is untouched.  When the check passes, the call returns what the wrapped
    [Write] returns, the store is as that call left it, and the cached total
    has grown by the count [n] the wrapped [Write] reported, whatever the
    length of the payload. *)
Theorem Write_checks_then_charges_written (fi : F) (p : list Byte.byte)
  (a : capacityFs.t W) :
  (capacityFs.hasEnoughCapacity (payload p) a = false ->
   fileSize.Write (capacityFs.newFileSize fi) p a
   = ((0, Some ErrNotEnoughCapacity), a))
  /\ (capacityFs.hasEnoughCapacity (payload p) a = true ->
      forall n err w,
        File_Write fi p (capacityFs.Fs a) = ((n, err), w) ->
        fileSize.Write (capacityFs.newFileSize fi) p a
        = ((n, err),
           {| capacityFs.Fs := w;
              capacityFs.limitedSize := capacityFs.limitedSize a;
              capacityFs.cachedSize :=
                Int64.wrap (capacityFs.cachedSize a + Int64.of_int n) |})).
Proof.
  unfold fileSize.Write, payload, capacityFs.newFileSize, capacityFs.liftFile.
  cbn [fileSize.hasEnoughCapacity fileSize.File fileSize.File_Write_
       fileSize.addCapacity].
  split.
  - intros Hno. rewrite Hno. reflexivity.
  - intros Hyes n err w Hw. rewrite Hyes, Hw. reflexivity.
Qed.

(** C5.  [Truncate] on a capacity-limited handle calls the wrapped
    [Truncate] first.  If that fails, its error is returned and the cached
    total is what it was.  If it succeeds, the cached total becomes the
    64-bit value of the old total minus the requested size: the new size
    of the file is subtracted, whatever the file held before. *)
Theorem Truncate_subtracts_new_size (fi : F) (size : Z) (a : capacityFs.t W) :
  (forall err w,
     File_Truncate fi size (capacityFs.Fs a) = (Some err, w) ->
     fileSize.Truncate (capacityFs.newFileSize fi) size a
     = (Some err,
        {| capacityFs.Fs := w;
           capacityFs.limitedSize := capacityFs.limitedSize a;
           capacityFs.cachedSize := capacityFs.cachedSize a |}))
  /\ (forall w,
        File_Truncate fi size (capacityFs.Fs a) = (None, w) ->
        fileSize.Truncate (capacityFs.newFileSize fi) size a
        = (None,
           {| capacityFs.Fs := w;
              capacityFs.limitedSize := capacityFs.limitedSize a;
              capacityFs.cachedSize := Int64.wrap (capacityFs.cachedSize a - size) |})).
Proof.
  unfold fileSize.Truncate, capacityFs.newFileSize, capacityFs.liftFile.
  cbn [fileSize.File fileSize.File_Truncate_ fileSize.addCapacity].
  split.
  - intros err w Ht. rewrite Ht. reflexivity.
  - intros w Ht. rewrite Ht. unfold capacityFs.addCapacity.
    cbn [capacityFs.with_Fs capacityFs.Fs capacityFs.limitedSize
         capacityFs.cachedSize].
    rewrite add_neg. reflexivity.
Qed.

(** [WriteAt] and [Write] as one formula each, the same but for the wrapped
    call: the check reads the payload's length, the charge the count the
    wrapped call reports. *)
Lemma WriteAt_Write_arithmetic (fi : F) (p : list Byte.byte) (off : Z)
  (a : capacityFs.t W) :
  let f := capacityFs.newFileSize fi in
  let charged (r : (Z * option error) * W) : capacityFs.t W :=
    {| capacityFs.Fs := snd r;
       capacityFs.limitedSize := capacityFs.limitedSize a;
       capacityFs.cachedSize :=
         Int64.wrap (capacityFs.cachedSize a + Int64.of_int (fst (fst r))) |} in
  fileSize.WriteAt f p off a
  = (if capacityFs.hasEnoughCapacity (payload p) a
     then (fst (File_WriteAt fi p off (capacityFs.Fs a)),
           charged (File_WriteAt fi p off (capacityFs.Fs a)))
     else ((0, Some ErrNotEnoughCapacity), a))
  /\ fileSize.Write f p a
     = (if capacityFs.hasEnoughCapacity (payload p) a
        then (fst (File_Write fi p (capacityFs.Fs a)),
              charged (File_Write fi p (capacityFs.Fs a)))
        else ((0, Some ErrNotEnoughCapacity), a)).
Proof.
  unfold fileSize.WriteAt, fileSize.Write, payload, capacityFs.newFileSize,
    capacityFs.liftFile.
  cbn [fileSize.hasEnoughCapacity fileSize.File fileSize.File_Write_
       fileSize.File_WriteAt_ fileSize.addCapacity].
  destruct (capacityFs.hasEnoughCapacity _ a); cbn [negb].
  - split.
    + destruct (File_WriteAt fi p off (capacityFs.Fs a)) as [[n err] w]. reflexivity.
    + destruct (File_Write fi p (capacityFs.Fs a)) as [[n err] w]. reflexivity.
  - split; reflexivity.
Qed.

End FileHandle.

(** ** The filesystem *)

Section Filesystem.
Context {W F : Type} `{afero_Fs W F}.

Lemma hasEnoughCapacity_has_capacity (n : Z) (a : capacityFs.t W) :
  capacityFs.hasEnoughCapacity n a = has_capacity n a.
Proof. reflexivity. Qed.

(** The handle the decorator builds around a file of the wrapped store
    checks the budget and charges it. *)
Lemma newFileSize_capacity_limited (fi : F) :
  capacity_limited fi (@capacityFs.newFileSize W F _ fi).
Proof.
  intros p off size b.
  unfold fileSize.Write, fileSize.WriteAt, fileSize.Truncate, payload,
    capacityFs.newFileSize, capacityFs.liftFile.
  cbn [fileSize.hasEnoughCapacity fileSize.File fileSize.File_Write_
       fileSize.File_WriteAt_ fileSize.File_Truncate_ fileSize.addCapacity].
  rewrite hasEnoughCapacity_has_capacity.
  split; [| split].
  - destruct (has_capacity _ b); cbn [negb]; [| reflexivity].
    destruct (File_Write fi p (capacityFs.Fs b)) as [[n err] w]. reflexivity.
  - destruct (has_capacity _ b); cbn [negb]; [| reflexivity].
    destruct (File_WriteAt fi p off (capacityFs.Fs b)) as [[n err] w]. reflexivity.
  - destruct (File_Truncate fi size (capacityFs.Fs b)) as [[err |] w]; cbn [fst snd].
    + reflexivity.
    + unfold capacityFs.addCapacity, capacityFs.with_Fs, budgeted.
      cbn [capacityFs.Fs capacityFs.limitedSize capacityFs.cachedSize].
      rewrite add_neg. reflexivity.
Qed.

(** C3.  [Create] calls the wrapped [Create] first and returns its error
    unchanged when it fails.  When it succeeds and the new entry can be
    stat'ed, the entry's size is checked against the budget: if it does not
    fit, the wrapped [Remove] is called on the name, whatever that call
    returns is dropped, and [ErrNotEnoughCapacity] is returned with the
    cached total as it was; if it fits, the cached total grows by the
    stat'ed size and the handle around the created file is returned.  That
    handle is capacity-limited: in whatever state the decorator is when it
    is used, its writes are refused when the budget has no room for the
    payload and are otherwise handed to the created file and charged the
    count written, and its truncations are handed to the created file and
    charged minus the new size. *)
Theorem Create_checks_after_creating (name : string) (a : capacityFs.t W) :
  (forall err w,
     Fs_Create name (capacityFs.Fs a) = (inr err, w) ->
     capacityFs.Create name a
     = ((None, Some err),
        {| capacityFs.Fs := w;
           capacityFs.limitedSize := capacityFs.limitedSize a;
           capacityFs.cachedSize := capacityFs.cachedSize a |}))
  /\ (forall fi w stat,
        Fs_Create name (capacityFs.Fs a) = (inl fi, w) ->
        Fs_Stat name w = inl stat ->
        (capacityFs.limitedSize a < Int64.wrap (Size stat + capacityFs.cachedSize a) ->
         forall rerr w',
           Fs_Remove name w = (rerr, w') ->
           capacityFs.Create name a
           = ((Some (capacityFs.newFileSize fi), Some ErrNotEnoughCapacity),
              {| capacityFs.Fs := w';
                 capacityFs.limitedSize := capacityFs.limitedSize a;
                 capacityFs.cachedSize := capacityFs.cachedSize a |}))
        /\ (Int64.wrap (Size stat + capacityFs.cachedSize a) <= capacityFs.limitedSize a ->
            capacityFs.Create name a
            = ((Some (capacityFs.newFileSize fi), None),
               {| capacityFs.Fs := w;
                  capacityFs.limitedSize := capacityFs.limitedSize a;
                  capacityFs.cachedSize :=
                    Int64.wrap (capacityFs.cachedSize a + Size stat) |})))
  /\ (forall fi w,
        Fs_Create name (capacityFs.Fs a) = (inl fi, w) ->
        exists h,
          fst (fst (capacityFs.Create name a)) = Some h /\ capacity_limited fi h).
Proof.
  split; [| split].
  - unfold capacityFs.Create. intros err w Hc. rewrite Hc. reflexivity.
  - unfold capacityFs.Create, capacityFs.statAndCheckSize,
      capacityFs.hasEnoughCapacity, capacityFs.addCapacity, capacityFs.with_Fs,
      Int64.add.
    intros fi w stat Hc Hs. rewrite Hc.
    cbn [capacityFs.Fs capacityFs.limitedSize capacityFs.cachedSize].
    rewrite Hs. split.
    + intros Hlt rerr w' Hr.
      destruct (Z.leb_spec (Int64.wrap (Size stat + capacityFs.cachedSize a))
                  (capacityFs.limitedSize a)) as [Hle | _]; [lia |].
      cbn [negb capacityFs.Fs capacityFs.limitedSize capacityFs.cachedSize].
      rewrite Hr. reflexivity.
    + intros Hle.
      destruct (Z.leb_spec (Int64.wrap (Size stat + capacityFs.cachedSize a))
                  (capacityFs.limitedSize a)) as [_ | Hlt]; [| lia].
      reflexivity.
  - intros fi w Hc. exists (capacityFs.newFileSize fi).
    split; [| apply newFileSize_capacity_limited].
    unfold capacityFs.Create. rewrite Hc.
    destruct (capacityFs.statAndCheckSize name (capacityFs.with_Fs a w))
      as [[err |] a1]; [| reflexivity].
    destruct (Fs_Remove name (capacityFs.Fs a1)) as [rerr w']. reflexivity.
Qed.

(** C10.  When the wrapped [Create] (or [Mkdir]) succeeds and the [Stat] of
    the new entry then fails, the call returns a [nil] error, with the handle
    for [Create]; the cached total is what it was and the store is exactly as
    the wrapped creation left it: no [Remove] was called on it, and the new
    entry stays, counted nowhere. *)
Theorem stat_failure_after_creation_is_success (name : string) (perm : FileMode)
  (a : capacityFs.t W) :
  (forall fi w e,
     Fs_Create name (capacityFs.Fs a) = (inl fi, w) ->
     Fs_Stat name w = inr e ->
     capacityFs.Create name a
     = ((Some (capacityFs.newFileSize fi), None),
        {| capacityFs.Fs := w;
           capacityFs.limitedSize := capacityFs.limitedSize a;
           capacityFs.cachedSize := capacityFs.cachedSize a |}))
  /\ (forall w e,
        Fs_Mkdir name perm (capacityFs.Fs a) = (None, w) ->
        Fs_Stat name w = inr e ->
        capacityFs.Mkdir name perm a
        = (None,
           {| capacityFs.Fs := w;
              capacityFs.limitedSize := capacityFs.limitedSize a;
              capacityFs.cachedSize := capacityFs.cachedSize a |})).
Proof.
  unfold capacityFs.Create, capacityFs.Mkdir, capacityFs.statAndCheckSize,
    capacityFs.with_Fs.
  split.
  - intros fi w e Hc Hs. rewrite Hc.
    cbn [capacityFs.Fs capacityFs.limitedSize capacityFs.cachedSize].
    rewrite Hs. reflexivity.
  - intros w e Hm Hs. rewrite Hm.
    cbn [capacityFs.Fs capacityFs.limitedSize capacityFs.cachedSize].
    rewrite Hs. reflexivity.
Qed.

End Filesystem.

(** ** Removal *)

Section Removal.
Context {W F : Type} `{afero_Fs W F}.

(** The size [beforeRemove] computes: the stat'ed size of a file, the sum
    the Size Scanner finds under a directory, and 0 without error for a name
    whose [Stat] fails. *)
Lemma beforeRemove_cases (name : string) (a : capacityFs.t W) :
  (forall stat,
     Fs_Stat name (capacityFs.Fs a) = inl stat -> IsDir stat = false ->
     capacityFs.beforeRemove name a = (Size stat, None))
  /\ (forall stat,
        Fs_Stat name (capacityFs.Fs a) = inl stat -> IsDir stat = true ->
        capacityFs.beforeRemove name a
        = CalculateSizeSum (NewBasePathFs (capacityFs.Fs a) name))
  /\ (forall e,
        Fs_Stat name (capacityFs.Fs a) = inr e ->
        capacityFs.beforeRemove name a = (0, None)).
Proof.
  unfold capacityFs.beforeRemove. repeat split.
  - intros stat Hs Hd. rewrite Hs, Hd. reflexivity.
  - intros stat Hs Hd. rewrite Hs, Hd.
    destruct (CalculateSizeSum (NewBasePathFs (capacityFs.Fs a) name))
      as [size [err |]]; reflexivity.
  - intros e Hs. rewrite Hs. reflexivity.
Qed.

Lemma beforeRemove_freed_size (name : string) (a : capacityFs.t W) :
  capacityFs.beforeRemove name a = freed_size name (capacityFs.Fs a).
Proof.
  unfold capacityFs.beforeRemove, freed_size.
  destruct (Fs_Stat name (capacityFs.Fs a)) as [stat | e]; [| reflexivity].
  destruct (IsDir stat); [| reflexivity].
  destruct (CalculateSizeSum (NewBasePathFs (capacityFs.Fs a) name))
    as [size [err |]]; reflexivity.
Qed.

Lemma Remove_outcomes (name : string) (a : capacityFs.t W) :
  removal_outcomes Fs_Remove capacityFs.Remove name a.
Proof.
  unfold removal_outcomes, capacityFs.Remove. repeat split.
  - intros size err Hb. rewrite Hb. reflexivity.
  - intros size err w Hb Hr. rewrite Hb, Hr. reflexivity.
  - intros size w Hb Hr. rewrite Hb, Hr.
    unfold capacityFs.addCapacity, capacityFs.with_Fs.
    cbn [capacityFs.Fs capacityFs.limitedSize capacityFs.cachedSize].
    rewrite add_neg. reflexivity.
Qed.

Lemma RemoveAll_outcomes (name : string) (a : capacityFs.t W) :
  removal_outcomes Fs_RemoveAll capacityFs.RemoveAll name a.
Proof.
  unfold removal_outcomes, capacityFs.RemoveAll. repeat split.
  - intros size err Hb. rewrite Hb. reflexivity.
  - intros size err w Hb Hr. rewrite Hb, Hr. reflexivity.
  - intros size w Hb Hr. rewrite Hb, Hr.
    unfold capacityFs.addCapacity, capacityFs.with_Fs.
    cbn [capacityFs.Fs capacityFs.limitedSize capacityFs.cachedSize].
    rewrite add_neg. reflexivity.
Qed.

(** C4, amended.  [Remove] and [RemoveAll] compute the size to free first:
    the stat'ed size of a file, the Size Scanner's sum under a directory,
    and 0 for a name whose [Stat] fails, the error of that [Stat] being
    dropped.  The computation fails only for a directory whose scan fails:
    then the scan's error is returned and the state is what it was, the
    wrapped removal not being called.  In every other case, that of a name
    that cannot be stat'ed included, the wrapped removal is called; if it
    fails its error is returned with the cached total untouched, and if it
    succeeds the cached total is decreased by exactly the computed size. *)
Theorem Remove_frees_the_computed_size (name : string) (a : capacityFs.t W) :
  (forall stat,
     Fs_Stat name (capacityFs.Fs a) = inl stat -> IsDir stat = false ->
     capacityFs.beforeRemove name a = (Size stat, None))
  /\ (forall stat,
        Fs_Stat name (capacityFs.Fs a) = inl stat -> IsDir stat = true ->
        capacityFs.beforeRemove name a
        = CalculateSizeSum (NewBasePathFs (capacityFs.Fs a) name))
  /\ (forall e,
        Fs_Stat name (capacityFs.Fs a) = inr e ->
        capacityFs.beforeRemove name a = (0, None))
  /\ (forall size err,
        capacityFs.beforeRemove name a = (size, Some err) ->
        exists stat,
          Fs_Stat name (capacityFs.Fs a) = inl stat
          /\ IsDir stat = true
          /\ CalculateSizeSum (NewBasePathFs (capacityFs.Fs a) name) = (size, Some err))
  /\ removal_outcomes Fs_Remove capacityFs.Remove name a
  /\ removal_outcomes Fs_RemoveAll capacityFs.RemoveAll name a
  /\ (forall e,
        Fs_Stat name (capacityFs.Fs a) = inr e ->
        capacityFs.Remove name a
        = (fst (Fs_Remove name (capacityFs.Fs a)),
           budgeted a (snd (Fs_Remove name (capacityFs.Fs a)))
             (match fst (Fs_Remove name (capacityFs.Fs a)) with
              | None => Int64.wrap (capacityFs.cachedSize a - 0)
              | Some _ => capacityFs.cachedSize a
              end))
        /\ capacityFs.RemoveAll name a
           = (fst (Fs_RemoveAll name (capacityFs.Fs a)),
              budgeted a (snd (Fs_RemoveAll name (capacityFs.Fs a)))
                (match fst (Fs_RemoveAll name (capacityFs.Fs a)) with
                 | None => Int64.wrap (capacityFs.cachedSize a - 0)
                 | Some _ => capacityFs.cachedSize a
                 end))).
Proof.
  pose proof (beforeRemove_cases name a) as (Hfile & Hdir & Hnone).
  split; [exact Hfile |]. split; [exact Hdir |]. split; [exact Hnone |].
  split; [| split; [apply Remove_outcomes | split; [apply RemoveAll_outcomes |]]].
  - intros size err Hb.
    destruct (Fs_Stat name (capacityFs.Fs a)) as [stat | e] eqn:Hs.
    + destruct (IsDir stat) eqn:Hd.
      * exists stat. rewrite (Hdir stat eq_refl Hd) in Hb. repeat split; assumption.
      * rewrite (Hfile stat eq_refl Hd) in Hb. discriminate.
    + rewrite (Hnone e eq_refl) in Hb. discriminate.
  - intros e Hs. pose proof (Hnone e Hs) as Hb.
    destruct (Remove_outcomes name a) as (_ & Hfail & Hok).
    destruct (RemoveAll_outcomes name a) as (_ & Hfail' & Hok').
    split.
    + destruct (Fs_Remove name (capacityFs.Fs a)) as [[err |] w] eqn:Hr; cbn [fst snd].
      * exact (Hfail 0 err w Hb eq_refl).
      * exact (Hok 0 w Hb eq_refl).
    + destruct (Fs_RemoveAll name (capacityFs.Fs a)) as [[err |] w] eqn:Hr;
        cbn [fst snd].
      * exact (Hfail' 0 err w Hb eq_refl).
      * exact (Hok' 0 w Hb eq_refl).
Qed.

End Removal.

(** C4, as stated, fails.  Over the store of the package's tests whose
    [Stat] fails for one name, here the file [f] of three bytes, with the
    cached total 45: the size cannot be computed, as the [Stat] of [f]
    fails; yet neither [Remove] nor [RemoveAll] returns that error.  Both
    call the wrapped removal, return [nil] and leave [f] removed from the
    store, with the cached total still at 45. *)
Lemma removal_goes_on_when_Stat_fails :
  Fs_Stat "f" Examples.failing_abc = inr Examples.unexpectedEOF
  /\ MemFs.Stat "f" Examples.store_abc = inl {| Size := 3; IsDir := false |}
  /\ capacityFs.Remove "f" (Examples.over Examples.failing_abc 1024 45)
     = (None,
        Examples.over
          {| Examples.under := snd (MemFs.Remove "f" Examples.store_abc);
             Examples.failing := "f" |}
          1024 45)
  /\ capacityFs.RemoveAll "f" (Examples.over Examples.failing_abc 1024 45)
     = (None,
        Examples.over
          {| Examples.under := snd (MemFs.RemoveAll "f" Examples.store_abc);
             Examples.failing := "f" |}
          1024 45)
  /\ MemFs.Stat "f" (snd (MemFs.Remove "f" Examples.store_abc))
     = inr MemFs.ErrNotExist
  /\ MemFs.Stat "f" (snd (MemFs.RemoveAll "f" Examples.store_abc))
     = inr MemFs.ErrNotExist.
Proof. repeat split. Qed.

(** ** Construction *)

Section Construction.
Context {W F : Type} `{afero_Fs W F}.

(** C7, amended.  [NewCapacityFs] fails for a [nil] filesystem and for a
    negative limit.  Otherwise it runs the Size Scanner over the whole tree:
    the scan's error is returned if it fails; if the sum found is above the
    limit, the error returned is a new error that wraps
    [ErrNotEnoughCapacity] and carries the two sizes in its message, so that
    [errors.Is] recognises the sentinel in it while it is not the sentinel
    itself; and if the sum fits, the instance returned has the wrapped
    store, the limit, and the scanned sum as its cached total. *)
Theorem NewCapacityFs_seeds_the_total_from_a_scan (size : Z) :
  NewCapacityFs (@None W) size = (None, Some (errorString "nil interface"))
  /\ (forall f : W,
        size < 0 ->
        NewCapacityFs (Some f) size = (None, Some (errorString "size less than 0")))
  /\ (forall (f : W) sum err,
        0 <= size ->
        CalculateSizeSum f = (sum, Some err) ->
        NewCapacityFs (Some f) size = (None, Some err))
  /\ (forall (f : W) sum,
        0 <= size ->
        CalculateSizeSum f = (sum, None) ->
        size < sum ->
        exists e,
          NewCapacityFs (Some f) size = (None, Some e)
          /\ e = wrapError ("not enough capacity: " ++ fmt_d sum ++ " > " ++ fmt_d size)
                   ErrNotEnoughCapacity
          /\ errors_Is e ErrNotEnoughCapacity = true
          /\ error_eqb e ErrNotEnoughCapacity = false)
  /\ (forall (f : W) sum,
        0 <= size ->
        CalculateSizeSum f = (sum, None) ->
        sum <= size ->
        NewCapacityFs (Some f) size
        = (Some {| capacityFs.Fs := f;
                   capacityFs.limitedSize := size;
                   capacityFs.cachedSize := sum |},
           None)).
Proof.
  unfold NewCapacityFs. repeat split.
  - intros f Hneg. destruct (Z.ltb_spec size 0); [reflexivity | lia].
  - intros f sum err Hpos Hscan.
    destruct (Z.ltb_spec size 0); [lia |]. rewrite Hscan. reflexivity.
  - intros f sum Hpos Hscan Hover.
    destruct (Z.ltb_spec size 0); [lia |]. rewrite Hscan.
    destruct (Z.gtb_spec sum size); [| lia].
    eexists. split; [reflexivity |]. repeat split.
  - intros f sum Hpos Hscan Hfits.
    destruct (Z.ltb_spec size 0); [lia |]. rewrite Hscan.
    destruct (Z.gtb_spec sum size); [lia |]. reflexivity.
Qed.

End Construction.

(** C7, as stated, fails.  Over the store that holds the file [f] of three
    bytes, with the limit 0 (the package's test builds the same case): the
    scanned sum 45 is above the limit, and the error returned is not
    [ErrNotEnoughCapacity], the sentinel a caller compares with, but another
    error whose message carries the two sizes. *)
Lemma NewCapacityFs_does_not_return_the_sentinel :
  CalculateSizeSum Examples.store_abc = (45, None)
  /\ NewCapacityFs (Some Examples.store_abc) 0
     = (None, Some (wrapError "not enough capacity: 45 > 0" ErrNotEnoughCapacity))
  /\ error_eqb (wrapError "not enough capacity: 45 > 0" ErrNotEnoughCapacity)
       ErrNotEnoughCapacity = false
  /\ Error (wrapError "not enough capacity: 45 > 0" ErrNotEnoughCapacity)
     = "not enough capacity: 45 > 0"
  /\ Error ErrNotEnoughCapacity = "not enough capacity".
Proof. repeat split. Qed.

(** ** Paths and their prefixes *)

Lemma Split_from_not_nil (sep : string) (s : string) :
  forall skip cur, strings.Split_from sep skip cur s <> [].
Proof.
  induction s as [| c s IH]; intros skip cur; cbn [strings.Split_from].
  - discriminate.
  - destruct skip as [| k]; [| apply IH].
    destruct (String.prefix sep (String c s)); [discriminate | apply IH].
Qed.

Lemma Join_cons (e : string) (rest : list string) (sep : string) :
  rest <> [] -> strings.Join (e :: rest) sep = e ++ sep ++ strings.Join rest sep.
Proof. destruct rest; [congruence | reflexivity]. Qed.

Lemma append_nil_r (s : string) : s ++ "" = s.
Proof. induction s as [| c s IH]; cbn; [| rewrite IH]; reflexivity. Qed.

Lemma append_assoc (s1 s2 s3 : string) : (s1 ++ s2) ++ s3 = s1 ++ s2 ++ s3.
Proof. induction s1 as [| c s1 IH]; cbn; [| rewrite IH]; reflexivity. Qed.

Lemma firstn_inits {A : Type} (l : list A) :
  List.map (fun k => firstn (S k) l) (seq 0 (List.length l)) = inits l.
Proof.
  induction l as [| x l IH]; [reflexivity |].
  cbn [List.length seq List.map inits]. f_equal.
  rewrite <- seq_shift, List.map_map, <- IH, List.map_map. reflexivity.
Qed.

Lemma inits_not_nil {A : Type} (l cs : list A) : In cs (inits l) -> cs <> [].
Proof.
  destruct l as [| x l]; cbn [inits]; [contradiction |].
  intros [<- | Hin]; [discriminate |].
  apply List.in_map_iff in Hin. destruct Hin as (cs' & <- & _). discriminate.
Qed.

(** The pieces of a path, joined up to each of them in turn, are the
    prefixes of the path that end where a separator begins. *)
Lemma prefixes_Split_from (s : string) :
  forall cur pre,
    List.map (fun cs => pre ++ strings.Join cs "/")
      (inits (strings.Split_from "/" 0 cur s))
    = prefixes_from (pre ++ cur) s.
Proof.
  induction s as [| c s IH]; intros cur pre.
  - reflexivity.
  - cbn [strings.Split_from String.prefix prefixes_from].
    destruct (ascii_dec "/" c) as [Heq | Hne].
    + subst c. cbn [String.length Nat.sub].
      replace (String.prefix "" s) with true by (destruct s; reflexivity).
      rewrite Ascii.eqb_refl. cbn [inits List.map strings.Join]. f_equal.
      rewrite List.map_map.
      replace (prefixes_from ((pre ++ cur) ++ "/") s)
        with (prefixes_from (((pre ++ cur) ++ "/") ++ "") s)
        by (rewrite append_nil_r; reflexivity).
      rewrite <- IH. apply List.map_ext_in. intros cs Hin.
      rewrite (@Join_cons cur cs "/" (@inits_not_nil _ _ cs Hin)), !append_assoc.
      reflexivity.
    + replace (Ascii.eqb c "/") with false
        by (symmetry; apply Ascii.eqb_neq; congruence).
      rewrite IH, append_assoc. reflexivity.
Qed.

Lemma possibleCombinations_prefixes (name : string) :
  possibleCombinations (strings.Split name "/") = path_prefixes name.
Proof.
  unfold possibleCombinations, path_prefixes, strings.Split. cbn [String.eqb].
  change (prefixes_from "" name) with (prefixes_from ("" ++ "") name).
  rewrite <- (prefixes_Split_from name "" ""), <- firstn_inits, List.map_map.
  reflexivity.
Qed.

Lemma prefixes_from_not_nil (rest read : string) : prefixes_from read rest <> [].
Proof.
  revert read. induction rest as [| c rest IH]; intros read; cbn [prefixes_from].
  - discriminate.
  - destruct (Ascii.eqb c "/"); [discriminate | apply IH].
Qed.

Lemma last_prefixes_from (rest : string) :
  forall read d, last (prefixes_from read rest) d = read ++ rest.
Proof.
  induction rest as [| c rest IH]; intros read d; cbn [prefixes_from].
  - symmetry. apply append_nil_r.
  - destruct (Ascii.eqb_spec c "/") as [-> | Hne].
    + pose proof (prefixes_from_not_nil rest (read ++ "/")) as Hne.
      destruct (prefixes_from (read ++ "/") rest) as [| v vs] eqn:Hp; [congruence |].
      change (last (read :: v :: vs) d) with (last (v :: vs) d).
      rewrite <- Hp, IH, append_assoc. reflexivity.
    + rewrite IH, append_assoc. reflexivity.
Qed.

Lemma last_path_prefixes (name : string) : last (path_prefixes name) "" = name.
Proof. unfold path_prefixes. rewrite last_prefixes_from. reflexivity. Qed.

(** ** [MkdirAll] *)

Section MkdirAllProperties.
Context {W F : Type} `{afero_Fs W F}.

Lemma Mkdir_make_missing (v : string) (perm : FileMode) (a : capacityFs.t W) :
  capacityFs.Mkdir v perm a
  = match Fs_Mkdir v perm (capacityFs.Fs a) with
    | (Some err, w) => (Some err, budgeted a w (capacityFs.cachedSize a))
    | (None, w) =>
        match Fs_Stat v w with
        | inl stat =>
            if has_capacity (Size stat) a then
              (None, budgeted a w (Int64.wrap (capacityFs.cachedSize a + Size stat)))
            else
              (Some ErrNotEnoughCapacity,
               budgeted a (snd (Fs_Remove v w)) (capacityFs.cachedSize a))
        | inr _ => (None, budgeted a w (capacityFs.cachedSize a))
        end
    end.
Proof.
  unfold capacityFs.Mkdir, capacityFs.statAndCheckSize, capacityFs.hasEnoughCapacity,
    capacityFs.addCapacity, capacityFs.with_Fs, has_capacity, budgeted, Int64.add.
  destruct (Fs_Mkdir v perm (capacityFs.Fs a)) as [[err |] w]; [reflexivity |].
  cbn [capacityFs.Fs capacityFs.limitedSize capacityFs.cachedSize].
  destruct (Fs_Stat v w) as [stat | e]; [| reflexivity].
  destruct (Int64.wrap (Size stat + capacityFs.cachedSize a)
            <=? capacityFs.limitedSize a); cbn [negb]; [reflexivity |].
  cbn [capacityFs.Fs capacityFs.limitedSize capacityFs.cachedSize].
  destruct (Fs_Remove v w) as [rerr w']. reflexivity.
Qed.

Lemma MkdirAll_range_make_missing (perm : FileMode) (vs : list string) :
  forall a : capacityFs.t W,
    capacityFs.MkdirAll_range vs perm a = make_missing vs perm a.
Proof.
  induction vs as [| v vs IH]; intros a;
    cbn [capacityFs.MkdirAll_range make_missing].
  - reflexivity.
  - destruct (Fs_Stat v (capacityFs.Fs a)) as [stat | e]; [apply IH |].
    rewrite Mkdir_make_missing.
    destruct (Fs_Mkdir v perm (capacityFs.Fs a)) as [[err |] w]; [reflexivity |].
    destruct (Fs_Stat v w) as [stat | e']; [| apply IH].
    destruct (has_capacity (Size stat) a); [apply IH | reflexivity].
Qed.


End MkdirAllProperties.

(** ** Writes that return no error *)

Section SuccessfulCalls.
Context {W F : Type} `{afero_Fs W F}.

Lemma Write_ok (fi : F) (p : list Byte.byte) (a a' : capacityFs.t W) (n : Z) :
  fileSize.Write (capacityFs.newFileSize fi) p a = ((n, None), a') ->
  Int64.wrap (payload p + capacityFs.cachedSize a) <= capacityFs.limitedSize a
  /\ exists w,
       File_Write fi p (capacityFs.Fs a) = ((n, None), w)
       /\ a' = {| capacityFs.Fs := w;
                  capacityFs.limitedSize := capacityFs.limitedSize a;
                  capacityFs.cachedSize :=
                    Int64.wrap (capacityFs.cachedSize a + Int64.of_int n) |}.
Proof.
  unfold fileSize.Write, capacityFs.newFileSize, capacityFs.liftFile.
  cbn [fileSize.hasEnoughCapacity fileSize.File fileSize.File_Write_
       fileSize.addCapacity].
  fold (payload p). intros Hw.
  destruct (capacityFs.hasEnoughCapacity (payload p) a) eqn:Hc; [| discriminate].
  apply hasEnoughCapacity_spec in Hc. split; [exact Hc |].
  cbn [negb] in Hw.
  destruct (File_Write fi p (capacityFs.Fs a)) as [[n' err] w].
  injection Hw as -> -> <-. exists w. split; reflexivity.
Qed.

Lemma WriteAt_ok (fi : F) (p : list Byte.byte) (off : Z) (a a' : capacityFs.t W)
  (n : Z) :
  fileSize.WriteAt (capacityFs.newFileSize fi) p off a = ((n, None), a') ->
  Int64.wrap (payload p + capacityFs.cachedSize a) <= capacityFs.limitedSize a
  /\ exists w,
       File_WriteAt fi p off (capacityFs.Fs a) = ((n, None), w)
       /\ a' = {| capacityFs.Fs := w;
                  capacityFs.limitedSize := capacityFs.limitedSize a;
                  capacityFs.cachedSize :=
                    Int64.wrap (capacityFs.cachedSize a + Int64.of_int n) |}.
Proof.
  unfold fileSize.WriteAt, capacityFs.newFileSize, capacityFs.liftFile.
  cbn [fileSize.hasEnoughCapacity fileSize.File fileSize.File_WriteAt_
       fileSize.addCapacity].
  fold (payload p). intros Hw.
  destruct (capacityFs.hasEnoughCapacity (payload p) a) eqn:Hc; [| discriminate].
  apply hasEnoughCapacity_spec in Hc. split; [exact Hc |].
  cbn [negb] in Hw.
  destruct (File_WriteAt fi p off (capacityFs.Fs a)) as [[n' err] w].
  injection Hw as -> -> <-. exists w. split; reflexivity.
Qed.

End SuccessfulCalls.

(** ** The sum of the Size Scanner *)

Lemma walkVisits_counted (vs : list Visit) :
  forall acc,
    walkVisits vs sizeWalkFunc (Int64.wrap acc)
    = (first_failure vs, Int64.wrap (acc + sum (counted vs))).
Proof.
  induction vs as [| [path info | path info err] vs IH]; intros acc;
    cbn [walkVisits sizeWalkFunc counted first_failure sum fold_right].
  - rewrite Z.add_0_r. reflexivity.
  - unfold Int64.add. rewrite wrap_add_l, IH. fold (sum (counted vs)).
    f_equal. f_equal. lia.
  - rewrite Z.add_0_r. reflexivity.
Qed.

Lemma CalculateSizeSum_in_range {T : Type} `{Walkable T} (f : T) :
  Int64.in_range (fst (CalculateSizeSum f)).
Proof.
  unfold CalculateSizeSum, Walk. change 0 with (Int64.wrap 0) at 1.
  rewrite walkVisits_counted. apply wrap_in_range.
Qed.

(** ** What a call adds to the cached total *)

Section Ledger.
Context {W F : Type} `{afero_Fs W F}.

Lemma wrap_same (a : capacityFs.t W) :
  Int64.in_range (capacityFs.cachedSize a) ->
  capacityFs.cachedSize a = Int64.wrap (capacityFs.cachedSize a + 0).
Proof. intros Hr. rewrite Z.add_0_r, (wrap_small Hr). reflexivity. Qed.

Lemma statAndCheckSize_charge (name : string) (w : W) (a : capacityFs.t W) :
  Int64.in_range (capacityFs.cachedSize a) ->
  capacityFs.cachedSize (snd (capacityFs.statAndCheckSize name (capacityFs.with_Fs a w)))
  = Int64.wrap (capacityFs.cachedSize a + charge_created name w a).
Proof.
  intros Hr.
  unfold capacityFs.statAndCheckSize, charge_created, capacityFs.hasEnoughCapacity,
    capacityFs.addCapacity, capacityFs.with_Fs, has_capacity, Int64.add.
  cbn [capacityFs.Fs capacityFs.limitedSize capacityFs.cachedSize].
  destruct (Fs_Stat name w) as [stat | e]; [| apply (wrap_same _ Hr)].
  destruct (Int64.wrap (Size stat + capacityFs.cachedSize a)
            <=? capacityFs.limitedSize a); cbn [negb snd capacityFs.cachedSize];
    [reflexivity | apply (wrap_same _ Hr)].
Qed.

Lemma Create_charge (name : string) (a : capacityFs.t W) :
  Int64.in_range (capacityFs.cachedSize a) ->
  capacityFs.cachedSize (snd (capacityFs.Create name a))
  = Int64.wrap (capacityFs.cachedSize a + charge (OpCreate name) a).
Proof.
  intros Hr. unfold capacityFs.Create. cbn [charge].
  destruct (Fs_Create name (capacityFs.Fs a)) as [[fi | err] w];
    [| apply (wrap_same _ Hr)].
  pose proof (statAndCheckSize_charge name w a Hr) as Hc.
  destruct (capacityFs.statAndCheckSize name (capacityFs.with_Fs a w))
    as [[err |] a1]; cbn [snd] in *; [| exact Hc].
  destruct (Fs_Remove name (capacityFs.Fs a1)) as [rerr w']. exact Hc.
Qed.

Lemma Mkdir_charge (name : string) (perm : FileMode) (a : capacityFs.t W) :
  Int64.in_range (capacityFs.cachedSize a) ->
  capacityFs.cachedSize (snd (capacityFs.Mkdir name perm a))
  = Int64.wrap (capacityFs.cachedSize a + charge (OpMkdir name perm) a).
Proof.
  intros Hr. unfold capacityFs.Mkdir. cbn [charge].
  destruct (Fs_Mkdir name perm (capacityFs.Fs a)) as [[err |] w];
    [apply (wrap_same _ Hr) |].
  pose proof (statAndCheckSize_charge name w a Hr) as Hc.
  destruct (capacityFs.statAndCheckSize name (capacityFs.with_Fs a w))
    as [[err |] a1]; cbn [snd] in *; [| exact Hc].
  destruct (Fs_Remove name (capacityFs.Fs a1)) as [rerr w']. exact Hc.
Qed.

Lemma make_missing_charge (perm : FileMode) (vs : list string) :
  forall a : capacityFs.t W,
    Int64.in_range (capacityFs.cachedSize a) ->
    capacityFs.cachedSize (snd (make_missing vs perm a))
    = Int64.wrap (capacityFs.cachedSize a + charge_prefixes vs perm a).
Proof.
  induction vs as [| v vs IH]; intros a Hr; cbn [make_missing charge_prefixes].
  - apply (wrap_same _ Hr).
  - destruct (Fs_Stat v (capacityFs.Fs a)) as [stat | e]; [apply (IH _ Hr) |].
    destruct (Fs_Mkdir v perm (capacityFs.Fs a)) as [[err |] w];
      [apply (wrap_same _ Hr) |].
    destruct (Fs_Stat v w) as [stat | e'].
    + destruct (has_capacity (Size stat) a); [| apply (wrap_same _ Hr)].
      rewrite IH by apply wrap_in_range.
      cbn [budgeted capacityFs.cachedSize]. rewrite wrap_add_l. f_equal. lia.
    + rewrite IH by exact Hr. reflexivity.
Qed.

Lemma removal_charge (rm : string -> W -> option error * W)
  (removal : string -> capacityFs.t W -> option error * capacityFs.t W)
  (name : string) (a : capacityFs.t W) :
  removal_outcomes rm removal name a ->
  Int64.in_range (capacityFs.cachedSize a) ->
  capacityFs.cachedSize (snd (removal name a))
  = Int64.wrap (capacityFs.cachedSize a + charge_removed rm name a).
Proof.
  intros (Herr & Hfail & Hok) Hr. unfold charge_removed.
  rewrite <- beforeRemove_freed_size.
  destruct (capacityFs.beforeRemove name a) as [size [err |]] eqn:Hb.
  - rewrite (Herr _ _ eq_refl). apply (wrap_same _ Hr).
  - destruct (rm name (capacityFs.Fs a)) as [[err |] w] eqn:Hrm.
    + rewrite (Hfail _ _ _ eq_refl eq_refl). apply (wrap_same _ Hr).
    + rewrite (Hok _ _ eq_refl eq_refl). reflexivity.
Qed.

(** Every operation adds its charge to the cached total, in 64-bit
    arithmetic, and leaves the limit as it was. *)
Lemma step_charge (op : Op F) (a : capacityFs.t W) :
  Int64.in_range (capacityFs.cachedSize a) ->
  capacityFs.cachedSize (snd (step op a))
  = Int64.wrap (capacityFs.cachedSize a + charge op a).
Proof.
  intros Hr.
  destruct op as [name | name perm | name perm | name | fi p | fi p off | fi size
                  | name | name];
    cbn [step].
  - pose proof (Create_charge name a Hr) as Hc.
    destruct (capacityFs.Create name a) as [[r err] a1]. exact Hc.
  - apply (Mkdir_charge _ _ _ Hr).
  - unfold capacityFs.MkdirAll. cbn [charge].
    rewrite possibleCombinations_prefixes, MkdirAll_range_make_missing.
    apply (make_missing_charge _ _ _ Hr).
  - unfold capacityFs.Open. cbn [charge].
    destruct (Fs_Open name (capacityFs.Fs a)) as [[fi | err] w];
      apply (wrap_same _ Hr).
  - destruct (newFileSize_capacity_limited fi p 0 0 a) as (Hw & _ & _).
    rewrite Hw. cbn [charge].
    destruct (has_capacity (payload p) a); [| apply (wrap_same _ Hr)].
    destruct (File_Write fi p (capacityFs.Fs a)) as [[n err] w]. reflexivity.
  - destruct (newFileSize_capacity_limited fi p off 0 a) as (_ & Hw & _).
    rewrite Hw. cbn [charge].
    destruct (has_capacity (payload p) a); [| apply (wrap_same _ Hr)].
    destruct (File_WriteAt fi p off (capacityFs.Fs a)) as [[n err] w]. reflexivity.
  - destruct (newFileSize_capacity_limited fi [] 0 size a) as (_ & _ & Ht).
    rewrite Ht. cbn [charge snd budgeted capacityFs.cachedSize].
    destruct (File_Truncate fi size (capacityFs.Fs a)) as [[err |] w]; cbn [fst].
    + apply (wrap_same _ Hr).
    + reflexivity.
  - apply (removal_charge (Remove_outcomes name a) Hr).
  - apply (removal_charge (RemoveAll_outcomes name a) Hr).
Qed.

Lemma step_in_range (op : Op F) (a : capacityFs.t W) :
  Int64.in_range (capacityFs.cachedSize a) ->
  Int64.in_range (capacityFs.cachedSize (snd (step op a))).
Proof. intros Hr. rewrite (@step_charge op a Hr). apply wrap_in_range. Qed.

(** A sequence of operations adds what it is charged. *)
Lemma exec_charge (ops : list (Op F)) :
  forall a : capacityFs.t W,
    Int64.in_range (capacityFs.cachedSize a) ->
    capacityFs.cachedSize (exec ops a)
    = Int64.wrap (capacityFs.cachedSize a + charge_all ops a).
Proof.
  induction ops as [| op ops IH]; intros a Hr; cbn [exec charge_all].
  - apply (wrap_same _ Hr).
  - rewrite (IH _ (@step_in_range op a Hr)), (@step_charge op a Hr), wrap_add_l.
    f_equal. lia.
Qed.

Lemma in_step_in_range (a : capacityFs.t W) :
  in_step a -> Int64.in_range (capacityFs.cachedSize a).
Proof.
  unfold in_step. intros Ha.
  pose proof (CalculateSizeSum_in_range (capacityFs.Fs a)) as Hr.
  rewrite Ha in Hr. exact Hr.
Qed.

(** A call keeps the cached total equal to the scanner's sum exactly when
    it changes that sum by its charge. *)
Lemma in_step_step (op : Op F) (a : capacityFs.t W) :
  in_step a -> grows_by_charge op a <-> in_step (snd (step op a)).
Proof.
  intros Ha. unfold grows_by_charge, in_step, scanned.
  rewrite (@step_charge op a (in_step_in_range Ha)).
  unfold in_step in Ha. rewrite Ha. reflexivity.
Qed.

(** A call that is charged at least what it adds to the tree adds its
    charge to the cached total without wrapping, and leaves the tree
    covered. *)
Lemma covered_step (op : Op F) (a : capacityFs.t W) :
  covered a -> grows_within_charge op a ->
  covered (snd (step op a))
  /\ capacityFs.cachedSize (snd (step op a)) = capacityFs.cachedSize a + charge op a.
Proof.
  unfold covered, grows_within_charge.
  intros (_ & Hs & Hmax) (Hscan & Hpos & Hgrow & Hroom).
  assert (Hr : Int64.in_range (capacityFs.cachedSize a)).
  { unfold Int64.in_range, Int64.min_signed, Int64.max_signed in *.
    assert (Hh : 0 < Int64.half_modulus) by reflexivity. lia. }
  rewrite (@step_charge op a Hr), wrap_small.
  - repeat split; try assumption; lia.
  - unfold Int64.in_range, Int64.min_signed, Int64.max_signed in *.
    assert (Hh : 0 < Int64.half_modulus) by reflexivity. lia.
Qed.

End Ledger.

(** ** The cached total and the scanner's sum *)


Section ScanInvariant.
Context {W F : Type} `{afero_Fs W F}.


End ScanInvariant.


(** ** The sign of the cached total *)


Section SignInvariant.
Context {W F : Type} `{afero_Fs W F}.


End SignInvariant.


(** ** Closed instances *)

Lemma Write_checks_then_charges_written_witness :
  fileSize.Write (capacityFs.newFileSize 0%nat) Examples.abc
    (Examples.over Examples.logged_f 44 42)
  = ((0, Some ErrNotEnoughCapacity), Examples.over Examples.logged_f 44 42)
  /\ fileSize.Write (capacityFs.newFileSize 0%nat) Examples.abc
       (Examples.over Examples.logged_f 45 42)
     = ((3, None),
        {| capacityFs.Fs :=
             {| inner := Examples.store_abc;
                calls := [CallWrite 0%nat Examples.abc] |};
           capacityFs.limitedSize := 45;
           capacityFs.cachedSize := Int64.wrap (42 + Int64.of_int 3) |}).
Proof.
  split.
  - apply (proj1 (Write_checks_then_charges_written 0%nat Examples.abc
                    (Examples.over Examples.logged_f 44 42))).
    reflexivity.
  - apply (proj2 (Write_checks_then_charges_written 0%nat Examples.abc
                    (Examples.over Examples.logged_f 45 42)));
      reflexivity.
Defined.

Lemma Truncate_subtracts_new_size_witness :
  fileSize.Truncate (capacityFs.newFileSize 7%nat) 1
    (Examples.over Examples.store_abc 1024 45)
  = (Some MemFs.ErrClosed, Examples.over Examples.store_abc 1024 45)
  /\ fileSize.Truncate (capacityFs.newFileSize 0%nat) 2
       (Examples.over Examples.store_abc 1024 45)
     = (None,
        {| capacityFs.Fs := snd (MemFs.Truncate 0%nat 2 Examples.store_abc);
           capacityFs.limitedSize := 1024;
           capacityFs.cachedSize := Int64.wrap (45 - 2) |}).
Proof.
  split.
  - apply (proj1 (Truncate_subtracts_new_size 7%nat 1
                    (Examples.over Examples.store_abc 1024 45))).
    reflexivity.
  - apply (proj2 (Truncate_subtracts_new_size 0%nat 2
                    (Examples.over Examples.store_abc 1024 45))).
    reflexivity.
Defined.

Lemma Create_checks_after_creating_witness :
  capacityFs.Create "err.txt" (Examples.over Examples.bad_empty 96 42)
  = ((None, Some Examples.unexpectedEOF), Examples.over Examples.bad_empty 96 42)
  /\ capacityFs.Create "f" (Examples.over Examples.logged_empty 41 42)
     = ((Some (capacityFs.newFileSize 0%nat), Some ErrNotEnoughCapacity),
        {| capacityFs.Fs :=
             {| inner := snd (MemFs.Remove "f" Examples.store_f);
                calls := [CallRemove "f"; CallCreate "f"] |};
           capacityFs.limitedSize := 41;
           capacityFs.cachedSize := 42 |})
  /\ capacityFs.Create "f" (Examples.over Examples.logged_empty 1024 42)
     = ((Some (capacityFs.newFileSize 0%nat), None),
        {| capacityFs.Fs := {| inner := Examples.store_f; calls := [CallCreate "f"] |};
           capacityFs.limitedSize := 1024;
           capacityFs.cachedSize := Int64.wrap (42 + 0) |})
  /\ exists h,
       fst (fst (capacityFs.Create "f" (Examples.over Examples.logged_empty 1024 42)))
       = Some h
       /\ capacity_limited 0%nat h.
Proof.
  split; [| split; [| split]].
  - apply (proj1 (Create_checks_after_creating "err.txt"
                    (Examples.over Examples.bad_empty 96 42))).
    reflexivity.
  - apply (proj1 (proj1 (proj2 (@Create_checks_after_creating _ _
                                  (@Logged_afero MemFs.t nat MemFs.MemFs_afero) "f"
                                  (Examples.over Examples.logged_empty 41 42)))
                    0%nat
                    {| inner := Examples.store_f; calls := [CallCreate "f"] |}
                    {| Size := 0; IsDir := false |}
                    ltac:(vm_compute; reflexivity) ltac:(vm_compute; reflexivity))
             ltac:(vm_compute; reflexivity) None).
    vm_compute. reflexivity.
  - apply (proj2 (proj1 (proj2 (@Create_checks_after_creating _ _
                                  (@Logged_afero MemFs.t nat MemFs.MemFs_afero) "f"
                                  (Examples.over Examples.logged_empty 1024 42)))
                    0%nat
                    {| inner := Examples.store_f; calls := [CallCreate "f"] |}
                    {| Size := 0; IsDir := false |}
                    ltac:(vm_compute; reflexivity) ltac:(vm_compute; reflexivity))).
    vm_compute. discriminate.
  - apply (proj2 (proj2 (@Create_checks_after_creating _ _
                           (@Logged_afero MemFs.t nat MemFs.MemFs_afero) "f"
                           (Examples.over Examples.logged_empty 1024 42)))
             0%nat {| inner := Examples.store_f; calls := [CallCreate "f"] |}).
    vm_compute. reflexivity.
Defined.

Lemma stat_failure_after_creation_is_success_witness :
  capacityFs.Create "f" (Examples.over Examples.failing_f 0 42)
  = ((Some (capacityFs.newFileSize 0%nat), None),
     {| capacityFs.Fs :=
          {| Examples.under := Examples.store_f; Examples.failing := "f" |};
        capacityFs.limitedSize := 0;
        capacityFs.cachedSize := 42 |})
  /\ capacityFs.Mkdir "f" 493 (Examples.over Examples.failing_f 0 42)
     = (None,
        {| capacityFs.Fs :=
             {| Examples.under := snd (MemFs.Mkdir "f" 493 MemFs.empty);
                Examples.failing := "f" |};
           capacityFs.limitedSize := 0;
           capacityFs.cachedSize := 42 |}).
Proof.
  split.
  - apply (proj1 (stat_failure_after_creation_is_success "f" 493
                    (Examples.over Examples.failing_f 0 42))
             0%nat _ Examples.unexpectedEOF);
      reflexivity.
  - apply (proj2 (stat_failure_after_creation_is_success "f" 493
                    (Examples.over Examples.failing_f 0 42))
             _ Examples.unexpectedEOF);
      reflexivity.
Defined.

Lemma Remove_frees_the_computed_size_witness :
  capacityFs.Remove "d" (Examples.over Examples.failing_x 1024 84)
  = (Some Examples.unexpectedEOF, Examples.over Examples.failing_x 1024 84)
  /\ capacityFs.Remove "nope" (Examples.over Examples.store_d 1024 84)
     = (Some MemFs.ErrNotExist, Examples.over Examples.store_d 1024 84)
  /\ capacityFs.RemoveAll "d" (Examples.over Examples.store_d 1024 84)
     = (None,
        {| capacityFs.Fs := snd (MemFs.RemoveAll "d" Examples.store_d);
           capacityFs.limitedSize := 1024;
           capacityFs.cachedSize := Int64.wrap (84 - 42) |})
  /\ capacityFs.beforeRemove "f" (Examples.over Examples.failing_abc 1024 45)
     = (0, None).
Proof.
  split; [| split; [| split]].
  - apply (proj1 (proj1 (proj2 (proj2 (proj2 (proj2
             (Remove_frees_the_computed_size "d"
                (Examples.over Examples.failing_x 1024 84)))))))
             42 Examples.unexpectedEOF).
    reflexivity.
  - apply (proj1 (proj2 (proj1 (proj2 (proj2 (proj2 (proj2
             (Remove_frees_the_computed_size "nope"
                (Examples.over Examples.store_d 1024 84))))))))
             0 MemFs.ErrNotExist Examples.store_d);
      reflexivity.
  - apply (proj2 (proj2 (proj1 (proj2 (proj2 (proj2 (proj2 (proj2
             (Remove_frees_the_computed_size "d"
                (Examples.over Examples.store_d 1024 84)))))))))
             42 (snd (MemFs.RemoveAll "d" Examples.store_d)));
      reflexivity.
  - apply (proj1 (proj2 (proj2
             (Remove_frees_the_computed_size "f"
                (Examples.over Examples.failing_abc 1024 45))))
             Examples.unexpectedEOF).
    reflexivity.
Defined.

Lemma NewCapacityFs_seeds_the_total_from_a_scan_witness :
  NewCapacityFs (Some MemFs.empty) (-1) = (None, Some (errorString "size less than 0"))
  /\ NewCapacityFs (Some Examples.failing_root) 50 = (None, Some Examples.unexpectedEOF)
  /\ (exists e,
        NewCapacityFs (Some MemFs.empty) 10 = (None, Some e)
        /\ e = wrapError ("not enough capacity: " ++ fmt_d 42 ++ " > " ++ fmt_d 10)
                 ErrNotEnoughCapacity
        /\ errors_Is e ErrNotEnoughCapacity = true
        /\ error_eqb e ErrNotEnoughCapacity = false)
  /\ NewCapacityFs (Some MemFs.empty) 1024 = (Some Examples.fresh, None).
Proof.
  split; [| split; [| split]].
  - apply (proj1 (proj2 (@NewCapacityFs_seeds_the_total_from_a_scan
                           MemFs.t nat _ (-1)))).
    reflexivity.
  - apply (proj1 (proj2 (proj2 (@NewCapacityFs_seeds_the_total_from_a_scan
                                  Examples.failStat nat _ 50)))
             Examples.failing_root 0 Examples.unexpectedEOF);
      [vm_compute; discriminate | reflexivity].
  - apply (proj1 (proj2 (proj2 (proj2 (@NewCapacityFs_seeds_the_total_from_a_scan
                                         MemFs.t nat _ 10))))
             MemFs.empty 42);
      [vm_compute; discriminate | reflexivity | reflexivity].
  - apply (proj2 (proj2 (proj2 (proj2 (@NewCapacityFs_seeds_the_total_from_a_scan
                                         MemFs.t nat _ 1024))))
             MemFs.empty 42);
      [vm_compute; discriminate | reflexivity | vm_compute; discriminate].
Defined.


(** ** The in-memory store: writing inside a file *)

Lemma length_write_at (data : list Byte.byte) (off : nat) (p : list Byte.byte) :
  List.length (MemFs.write_at data off p)
  = Nat.max (List.length data) (off + List.length p).
Proof.
  unfold MemFs.write_at.
  rewrite !List.length_app, List.length_firstn, List.length_app, List.repeat_length,
    List.length_skipn.
  lia.
Qed.

Lemma nth_error_set_nth {A : Type} (l : list A) :
  forall i x y, nth_error l i = Some x -> nth_error (MemFs.set_nth i y l) i = Some y.
Proof.
  induction l as [| z l IH]; intros [| i] x y Hn; cbn in *; try discriminate.
  - reflexivity.
  - exact (IH _ _ _ Hn).
Qed.

(** Replacing the contents of a file by contents of the same length leaves
    every length in the table as it was. *)
Lemma content_set_nth_length (fs : list (list Byte.byte)) :
  forall id data id',
    List.length data = List.length (MemFs.content fs id) ->
    List.length (MemFs.content (MemFs.set_nth id data fs) id')
    = List.length (MemFs.content fs id').
Proof.
  unfold MemFs.content.
  induction fs as [| d fs IH]; intros id data id' Hlen;
    [destruct id; reflexivity |].
  destruct id as [| id]; destruct id' as [| id']; cbn [MemFs.set_nth nth] in *.
  - exact Hlen.
  - reflexivity.
  - reflexivity.
  - apply IH. exact Hlen.
Qed.

(** The size of a tree depends on the table of contents through the
    lengths only. *)
Lemma total_under_lengths (fs fs' : list (list Byte.byte)) :
  (forall id, List.length (MemFs.content fs' id) = List.length (MemFs.content fs id)) ->
  forall n, MemFs.total_under fs' n = MemFs.total_under fs n.
Proof.
  intros Hlen. fix IH 1. intros [id | es].
  - cbn [MemFs.total_under MemFs.info Size]. rewrite Hlen. reflexivity.
  - cbn [MemFs.total_under]. f_equal.
    induction es as [| [c m] es IHes]; [reflexivity |].
    rewrite (IH m), IHes. reflexivity.
Qed.

(** A successful [WriteAt] that ends inside the file leaves the size of the
    tree as it was and reports the length of the payload. *)
Lemma MemFs_WriteAt_inside (fi : nat) (p : list Byte.byte) (off : Z) (w w' : MemFs.t)
  (n : Z) (len : nat) :
  MemFs.WriteAt fi p off w = ((n, None), w') ->
  MemFs.file_length fi w = Some len ->
  off + Z.of_nat (List.length p) <= Z.of_nat len ->
  n = Z.of_nat (List.length p) /\ MemFs.total w' = MemFs.total w.
Proof.
  unfold MemFs.WriteAt, MemFs.file_length. intros Hw Hlen Hin.
  destruct (nth_error (MemFs.handles w) fi) as [h |] eqn:Hh; [| discriminate].
  destruct (Z.ltb_spec off 0) as [| Hoff]; [discriminate |].
  unfold MemFs.Write in Hw. cbn [MemFs.handles MemFs.files MemFs.root] in Hw.
  rewrite (nth_error_set_nth _ _ _ Hh) in Hw.
  cbn [MemFs.hreadonly MemFs.hfile MemFs.hpos] in Hw.
  destruct (MemFs.hreadonly h); [discriminate |].
  destruct (MemFs.hfile h) as [id |]; [| discriminate].
  injection Hlen as <-. injection Hw as <- <-. split; [reflexivity |].
  unfold MemFs.total. cbn [MemFs.files MemFs.root].
  apply total_under_lengths. intros id'. apply content_set_nth_length.
  rewrite length_write_at. lia.
Qed.

(** ** Writing at an offset *)

(** C8.  [WriteAt] makes the same check and the same charge as [Write].
    Over any wrapped store: both are refused exactly when the budget has no
    room for the payload's length, whatever the offset, and a refusal leaves
    the state as it was; when there is room, [WriteAt] hands the payload and
    the offset to the wrapped [WriteAt], leaves the store as that call left
    it, and the cached total grows by the count the wrapped call reported, as
    for [Write]: the offset takes no part in the arithmetic.  Over the
    in-memory store: a successful [WriteAt] that lies wholly inside the bytes
    the file already has leaves the size of the tree as it was, and the
    cached total still grows by the full length of the payload. *)
Theorem WriteAt_charges_like_Write :
  (forall (W F : Type) (H : afero_Fs W F) (fi : F) (p : list Byte.byte) (off : Z)
          (a : capacityFs.t W),
     let f := capacityFs.newFileSize fi in
     let charged (r : (Z * option error) * W) : capacityFs.t W :=
       {| capacityFs.Fs := snd r;
          capacityFs.limitedSize := capacityFs.limitedSize a;
          capacityFs.cachedSize :=
            Int64.wrap (capacityFs.cachedSize a + Int64.of_int (fst (fst r))) |} in
     fileSize.WriteAt f p off a
     = (if capacityFs.hasEnoughCapacity (payload p) a
        then (fst (File_WriteAt fi p off (capacityFs.Fs a)),
              charged (File_WriteAt fi p off (capacityFs.Fs a)))
        else ((0, Some ErrNotEnoughCapacity), a))
     /\ fileSize.Write f p a
        = (if capacityFs.hasEnoughCapacity (payload p) a
           then (fst (File_Write fi p (capacityFs.Fs a)),
                 charged (File_Write fi p (capacityFs.Fs a)))
           else ((0, Some ErrNotEnoughCapacity), a)))
  /\ (forall (fi : nat) (p : list Byte.byte) (off : Z) (a a' : capacityFs.t MemFs.t)
             (n : Z) (len : nat),
        fileSize.WriteAt (capacityFs.newFileSize fi) p off a = ((n, None), a') ->
        MemFs.file_length fi (capacityFs.Fs a) = Some len ->
        off + Z.of_nat (List.length p) <= Z.of_nat len ->
        MemFs.total (capacityFs.Fs a') = MemFs.total (capacityFs.Fs a)
        /\ capacityFs.cachedSize a'
           = Int64.wrap (capacityFs.cachedSize a + Z.of_nat (List.length p))).
Proof.
  split.
  - intros W F H fi p off a. exact (WriteAt_Write_arithmetic fi p off a).
  - intros fi p off a a' n len Hw Hlen Hin.
    destruct (WriteAt_ok _ _ _ _ Hw) as (_ & w & Hstore & ->).
    destruct (MemFs_WriteAt_inside _ _ _ _ Hstore Hlen Hin) as (-> & Ht).
    cbn [capacityFs.Fs capacityFs.cachedSize]. split; [exact Ht |].
    unfold Int64.of_int. apply wrap_add_r.
Qed.

Lemma WriteAt_charges_like_Write_witness :
  MemFs.total
    (capacityFs.Fs
       (snd (fileSize.WriteAt (capacityFs.newFileSize 0%nat) [Byte.x7a] 1
               (Examples.over Examples.store_abc 1024 45))))
  = MemFs.total Examples.store_abc
  /\ capacityFs.cachedSize
       (snd (fileSize.WriteAt (capacityFs.newFileSize 0%nat) [Byte.x7a] 1
               (Examples.over Examples.store_abc 1024 45)))
     = Int64.wrap (45 + 1).
Proof.
  apply (proj2 WriteAt_charges_like_Write 0%nat [Byte.x7a] 1
           (Examples.over Examples.store_abc 1024 45) _ 1 3%nat).
  - reflexivity.
  - reflexivity.
  - vm_compute. discriminate.
Defined.

(** ** Further closed runs *)

(** The prefixes of ["a/b/c"]. *)
Example possibleCombinations_abc :
  possibleCombinations (strings.Split "a/b/c" "/") = ["a"; "a/b"; "a/b/c"].
Proof. reflexivity. Qed.

(** [MkdirAll] charges each directory it makes, and none that is there
    already, as the package's test has it: three directories with the root,
    then five. *)
Example MkdirAll_charges_new_prefixes :
  option_map (@capacityFs.cachedSize MemFs.t)
    (run [OpMkdirAll "dir1/dir2" 493] Examples.fresh) = Some (42 * 3)
  /\ option_map (@capacityFs.cachedSize MemFs.t)
       (run [OpMkdirAll "dir1/dir2" 493; OpMkdirAll "dir1/dir2/dir3/dir4" 493]
          Examples.fresh) = Some (42 * 5).
Proof. split; vm_compute; reflexivity. Qed.

(** The removal of the package's test: with the directories [dir1] and
    [dir1/dir2] and five bytes in [dir1/dir2/ok.txt], removing [dir1/dir2]
    leaves the cached total at 84, for [Remove] as for [RemoveAll]. *)
Example removing_a_directory_with_a_file :
  option_map (@capacityFs.cachedSize MemFs.t)
    (run [OpMkdir "dir1" 493; OpMkdir "dir1/dir2" 493; OpCreate "dir1/dir2/ok.txt";
          OpWrite 0%nat (Examples.abc ++ [Byte.x64; Byte.x65]); OpRemove "dir1/dir2"]
       (Examples.over MemFs.empty 5000 42)) = Some 84
  /\ option_map (@capacityFs.cachedSize MemFs.t)
       (run [OpMkdir "dir1" 493; OpMkdir "dir1/dir2" 493; OpCreate "dir1/dir2/ok.txt";
             OpWrite 0%nat (Examples.abc ++ [Byte.x64; Byte.x65]);
             OpRemoveAll "dir1/dir2"]
          (Examples.over MemFs.empty 5000 42)) = Some 84.
Proof. split; vm_compute; reflexivity. Qed.

(** When the wrapped store makes the parents that are missing, as
    [afero.MemMapFs] does, a [Mkdir] is charged the directory it names and
    not the parents made with it: the cached total falls behind the tree. *)
Example parents_made_by_the_store_are_not_charged :
  exists a',
    run [OpMkdir "a/b" 493] Examples.fresh = Some a'
    /\ capacityFs.cachedSize a' = 84
    /\ CalculateSizeSum (capacityFs.Fs a') = (126, None).
Proof. eexists. split; [vm_compute; reflexivity |]. split; reflexivity. Qed.

(** What was never charged is given back all the same when it is removed:
    a file created two directories down, then the removal of the topmost
    directory, take the cached total below zero without any truncation. *)
Example removing_what_was_never_charged :
  exists a',
    run [OpCreate "a/b/f"; OpRemoveAll "a"] Examples.fresh = Some a'
    /\ capacityFs.cachedSize a' = -42
    /\ CalculateSizeSum (capacityFs.Fs a') = (42, None).
Proof. eexists. split; [vm_compute; reflexivity |]. split; reflexivity. Qed.

(** A handle outlives the name of its file: a write through it after the
    removal is charged, and adds nothing to the tree. *)
Example writing_to_a_removed_file_is_charged :
  exists a',
    run [OpCreate "f"; OpRemove "f"; OpWrite 0%nat Examples.abc] Examples.fresh = Some a'
    /\ capacityFs.cachedSize a' = 45
    /\ CalculateSizeSum (capacityFs.Fs a') = (42, None).
Proof. eexists. split; [vm_compute; reflexivity |]. split; reflexivity. Qed.

(** A write past the end of a file is charged less than the file grows: the
    removal that follows takes the cached total below zero, without any
    truncation. *)
Example write_past_the_end_then_remove :
  option_map (@capacityFs.cachedSize MemFs.t)
    (run [OpCreate "f"; OpWriteAt 0%nat [Byte.x7a] 1000; OpRemove "f"] Examples.fresh)
  = Some (-958).
Proof. vm_compute. reflexivity. Qed.

(** Creating a name again binds it to a new, empty file and gives nothing
    back. *)
Example Create_again_keeps_the_charge :
  exists a',
    run [OpCreate "f"; OpWrite 0%nat Examples.abc; OpCreate "f"] Examples.fresh = Some a'
    /\ capacityFs.cachedSize a' = 45
    /\ CalculateSizeSum (capacityFs.Fs a') = (42, None).
Proof. eexists. split; [vm_compute; reflexivity |]. split; reflexivity. Qed.

(** [OpenFile] makes no check and no charge: opening a file of three bytes
    for writing with [O_TRUNC] empties it and leaves the cached total at 45,
    while the Size Scanner then finds 42. *)
Example OpenFile_for_writing_with_O_TRUNC :
  snd (fst (capacityFs.OpenFile "f" (MemFs.O_RDWR + MemFs.O_TRUNC) 420
              (Examples.over Examples.store_abc 1024 45))) = None
  /\ capacityFs.cachedSize
       (snd (capacityFs.OpenFile "f" (MemFs.O_RDWR + MemFs.O_TRUNC) 420
               (Examples.over Examples.store_abc 1024 45))) = 45
  /\ CalculateSizeSum
       (capacityFs.Fs
          (snd (capacityFs.OpenFile "f" (MemFs.O_RDWR + MemFs.O_TRUNC) 420
                  (Examples.over Examples.store_abc 1024 45)))) = (42, None).
Proof. split; [| split]; vm_compute; reflexivity. Qed.

(** Near the end of the 64-bit range the check itself wraps: a directory
    that does not fit passes it, and the cached total turns negative. *)
Example check_wraps_near_the_end_of_the_range :
  option_map (@capacityFs.cachedSize MemFs.t)
    (run [OpMkdir "d" 493]
       (Examples.over MemFs.empty Int64.max_signed (Int64.max_signed - 10)))
  = Some (Int64.min_signed + 31).
Proof. vm_compute. reflexivity. Qed.

(** * Further properties of the code *)

(** ** The Size Scanner *)

Lemma first_failure_none (vs : list Visit) :
  first_failure vs = None ->
  counted vs
  = List.map (fun v => match v with Entry _ info => Size info | _ => 0 end) vs.
Proof.
  induction vs as [| [path info | path info err] vs IH]; cbn [first_failure counted List.map].
  - reflexivity.
  - intros Hn. rewrite (IH Hn). reflexivity.
  - discriminate.
Qed.

Lemma first_failure_Forall (vs : list Visit) :
  first_failure vs = None
  <-> Forall (fun v => match v with Entry _ _ => True | _ => False end) vs.
Proof.
  induction vs as [| [path info | path info err] vs IH]; cbn [first_failure].
  - split; [constructor | reflexivity].
  - rewrite IH. split.
    + intros Hf. constructor; [exact I | exact Hf].
    + intros Hf. inversion Hf. assumption.
  - split; [discriminate |]. intros Hf. inversion Hf. contradiction.
Qed.

Lemma sum_Permutation (l l' : list Z) : Permutation l l' -> sum l = sum l'.
Proof.
  induction 1 as [| x l l' _ IH | x y l | l l' l'' _ IH1 _ IH2];
    cbn [sum fold_right] in *.
  - reflexivity.
  - unfold sum in IH. rewrite IH. reflexivity.
  - lia.
  - congruence.
Qed.

(** X1.  The Size Scanner returns the 64-bit sum of the sizes of the entries the
    walk visits before its first failure, together with that failure: when
    the walk fails, the sum of what came before is returned beside the
    error, and nothing after the failure is counted.  When no visit fails,
    the result does not depend on the order of the visits. *)
Theorem CalculateSizeSum_counts_up_to_the_first_failure {T : Type} `{Walkable T}
  (f : T) :
  CalculateSizeSum f
  = (Int64.wrap (sum (counted (Walk_visits "" f))), first_failure (Walk_visits "" f))
  /\ forall (T' : Type) (H' : Walkable T') (g : T'),
       Permutation (Walk_visits "" f) (Walk_visits "" g) ->
       first_failure (Walk_visits "" f) = None ->
       CalculateSizeSum g = CalculateSizeSum f.
Proof.
  assert (Hsum : forall (T0 : Type) (H0 : Walkable T0) (h : T0),
             CalculateSizeSum h
             = (Int64.wrap (sum (counted (Walk_visits "" h))),
                first_failure (Walk_visits "" h))).
  { intros T0 H0 h. unfold CalculateSizeSum, Walk.
    change 0 with (Int64.wrap 0) at 1. rewrite walkVisits_counted. reflexivity. }
  split; [apply Hsum |].
  intros T' H' g Hperm Hnone. rewrite !Hsum.
  assert (Hnone' : first_failure (Walk_visits "" g) = None).
  { apply first_failure_Forall. eapply Permutation_Forall; [exact Hperm |].
    apply first_failure_Forall. exact Hnone. }
  rewrite Hnone, Hnone', (first_failure_none _ Hnone), (first_failure_none _ Hnone').
  f_equal. f_equal. symmetry. apply sum_Permutation, Permutation_map. exact Hperm.
Qed.

Lemma CalculateSizeSum_counts_up_to_the_first_failure_witness :
  CalculateSizeSum (snd (MemFs.Create "x" (snd (MemFs.Mkdir "d" 493 MemFs.empty))))
  = CalculateSizeSum (snd (MemFs.Mkdir "d" 493 (snd (MemFs.Create "x" MemFs.empty)))).
Proof.
  apply (proj2 (CalculateSizeSum_counts_up_to_the_first_failure
                  (snd (MemFs.Mkdir "d" 493 (snd (MemFs.Create "x" MemFs.empty)))))).
  - vm_compute. apply perm_skip, perm_swap.
  - reflexivity.
Defined.

(** ** The budget *)

Section Budget.
Context {W F : Type} `{afero_Fs W F}.

(** X2.  For 64-bit operands whose sum is a 64-bit value, [hasEnoughCapacity]
    is the comparison of that sum with the limit.  When the sum is past the
    largest 64-bit value, the sum the code compares has wrapped to a negative
    number: the check then passes under every limit that is not negative,
    however little room is left. *)
Theorem hasEnoughCapacity_exact_until_the_sum_wraps (size : Z) (a : capacityFs.t W) :
  Int64.in_range size ->
  Int64.in_range (capacityFs.cachedSize a) ->
  (Int64.in_range (size + capacityFs.cachedSize a) ->
   (capacityFs.hasEnoughCapacity size a = true
    <-> size + capacityFs.cachedSize a <= capacityFs.limitedSize a))
  /\ (Int64.max_signed < size + capacityFs.cachedSize a ->
      0 <= capacityFs.limitedSize a ->
      capacityFs.hasEnoughCapacity size a = true).
Proof.
  intros Hs Hc. split.
  - intros Hsum. rewrite hasEnoughCapacity_spec, (wrap_small Hsum). reflexivity.
  - intros Hover Hlim. apply hasEnoughCapacity_spec.
    unfold Int64.in_range, Int64.min_signed, Int64.max_signed in *.
    assert (Hm : Int64.modulus = 2 * Int64.half_modulus) by reflexivity.
    assert (Hh : 0 < Int64.half_modulus) by reflexivity.
    unfold Int64.wrap.
    replace (size + capacityFs.cachedSize a + Int64.half_modulus)
      with (size + capacityFs.cachedSize a - Int64.half_modulus + 1 * Int64.modulus)
      by lia.
    rewrite Z.mod_add by lia. rewrite Z.mod_small by lia. lia.
Qed.

(** X3.  [statAndCheckSize] fails with [ErrNotEnoughCapacity] and nothing else,
    and then the decorator is as it was.  It never calls a mutating
    operation of the wrapped store and never changes the limit.  When the
    entry can be stat'ed and the call succeeds, the cached total has grown by
    the stat'ed size (64-bit) and is at most the limit. *)
Theorem statAndCheckSize_charges_within_the_limit (name : string)
  (a : capacityFs.t W) :
  (fst (capacityFs.statAndCheckSize name a) = None
   \/ (fst (capacityFs.statAndCheckSize name a) = Some ErrNotEnoughCapacity
       /\ snd (capacityFs.statAndCheckSize name a) = a))
  /\ capacityFs.Fs (snd (capacityFs.statAndCheckSize name a)) = capacityFs.Fs a
  /\ capacityFs.limitedSize (snd (capacityFs.statAndCheckSize name a))
     = capacityFs.limitedSize a
  /\ (forall stat,
        Fs_Stat name (capacityFs.Fs a) = inl stat ->
        fst (capacityFs.statAndCheckSize name a) = None ->
        capacityFs.cachedSize (snd (capacityFs.statAndCheckSize name a))
        = Int64.wrap (capacityFs.cachedSize a + Size stat)
        /\ capacityFs.cachedSize (snd (capacityFs.statAndCheckSize name a))
           <= capacityFs.limitedSize a).
Proof.
  unfold capacityFs.statAndCheckSize, capacityFs.hasEnoughCapacity,
    capacityFs.addCapacity, Int64.add.
  destruct (Fs_Stat name (capacityFs.Fs a)) as [stat | e].
  - destruct (Z.leb_spec (Int64.wrap (Size stat + capacityFs.cachedSize a))
                (capacityFs.limitedSize a)) as [Hle | Hlt];
      cbn [negb fst snd capacityFs.Fs capacityFs.limitedSize capacityFs.cachedSize].
    + split; [left; reflexivity |]. split; [reflexivity |]. split; [reflexivity |].
      intros stat' Hs _. injection Hs as <-. split; [reflexivity |].
      rewrite Z.add_comm. exact Hle.
    + split; [right; split; reflexivity |]. split; [reflexivity |].
      split; [reflexivity |]. intros stat' _ Hn. discriminate.
  - cbn [fst snd]. split; [left; reflexivity |]. split; [reflexivity |].
    split; [reflexivity |]. intros stat' Hs. discriminate.
Qed.

(** X4.  [Mkdir] follows the protocol of [Create].  The error of the wrapped
    [Mkdir] is returned as it is, with the cached total untouched.  When the
    new directory can be stat'ed and its size does not fit, the wrapped
    [Remove] is called on the name, its result is dropped, and
    [ErrNotEnoughCapacity] is returned with the cached total as it was; when
    it fits, the cached total grows by the stat'ed size. *)
Theorem Mkdir_checks_after_creating (name : string) (perm : FileMode)
  (a : capacityFs.t W) :
  (forall err w,
     Fs_Mkdir name perm (capacityFs.Fs a) = (Some err, w) ->
     capacityFs.Mkdir name perm a
     = (Some err,
        {| capacityFs.Fs := w;
           capacityFs.limitedSize := capacityFs.limitedSize a;
           capacityFs.cachedSize := capacityFs.cachedSize a |}))
  /\ (forall w stat,
        Fs_Mkdir name perm (capacityFs.Fs a) = (None, w) ->
        Fs_Stat name w = inl stat ->
        (capacityFs.limitedSize a < Int64.wrap (Size stat + capacityFs.cachedSize a) ->
         capacityFs.Mkdir name perm a
         = (Some ErrNotEnoughCapacity,
            {| capacityFs.Fs := snd (Fs_Remove name w);
               capacityFs.limitedSize := capacityFs.limitedSize a;
               capacityFs.cachedSize := capacityFs.cachedSize a |}))
        /\ (Int64.wrap (Size stat + capacityFs.cachedSize a) <= capacityFs.limitedSize a ->
            capacityFs.Mkdir name perm a
            = (None,
               {| capacityFs.Fs := w;
                  capacityFs.limitedSize := capacityFs.limitedSize a;
                  capacityFs.cachedSize :=
                    Int64.wrap (capacityFs.cachedSize a + Size stat) |}))).
Proof.
  unfold capacityFs.Mkdir, capacityFs.statAndCheckSize,
    capacityFs.hasEnoughCapacity, capacityFs.addCapacity, capacityFs.with_Fs,
    Int64.add.
  split.
  - intros err w Hm. rewrite Hm. reflexivity.
  - intros w stat Hm Hs. rewrite Hm.
    cbn [capacityFs.Fs capacityFs.limitedSize capacityFs.cachedSize].
    rewrite Hs. split.
    + intros Hlt.
      destruct (Z.leb_spec (Int64.wrap (Size stat + capacityFs.cachedSize a))
                  (capacityFs.limitedSize a)) as [Hle | _]; [lia |].
      cbn [negb capacityFs.Fs capacityFs.limitedSize capacityFs.cachedSize].
      destruct (Fs_Remove name w) as [rerr w']. reflexivity.
    + intros Hle.
      destruct (Z.leb_spec (Int64.wrap (Size stat + capacityFs.cachedSize a))
                  (capacityFs.limitedSize a)) as [_ | Hlt]; [| lia].
      reflexivity.
Qed.

(** X5.  The two listings of the package agree: rolling back through
    [deferError] is rolling back through the wrapped [Remove], for [Create]
    and for [Mkdir]; and [deferError] with a [nil] error does nothing. *)
Theorem deferError_rolls_back_as_Remove (name : string) (perm : FileMode)
  (a : capacityFs.t W) :
  capacityFs2.Create name a = capacityFs.Create name a
  /\ capacityFs2.Mkdir name perm a = capacityFs.Mkdir name perm a
  /\ capacityFs.deferError name None a = a
  /\ forall err,
       capacityFs.deferError name (Some err) a
       = capacityFs.with_Fs a (snd (Fs_Remove name (capacityFs.Fs a))).
Proof.
  unfold capacityFs2.Create, capacityFs.Create, capacityFs2.Mkdir, capacityFs.Mkdir,
    capacityFs.deferError.
  repeat split.
  - destruct (Fs_Create name (capacityFs.Fs a)) as [[fi | err] w]; [| reflexivity].
    destruct (capacityFs.statAndCheckSize name (capacityFs.with_Fs a w))
      as [[err |] a1]; [| reflexivity].
    destruct (Fs_Remove name (capacityFs.Fs a1)) as [rerr w']. reflexivity.
  - destruct (Fs_Mkdir name perm (capacityFs.Fs a)) as [[err |] w]; [reflexivity |].
    destruct (capacityFs.statAndCheckSize name (capacityFs.with_Fs a w))
      as [[err |] a1]; [| reflexivity].
    destruct (Fs_Remove name (capacityFs.Fs a1)) as [rerr w']. reflexivity.
Qed.

End Budget.

Lemma hasEnoughCapacity_exact_until_the_sum_wraps_witness :
  (capacityFs.hasEnoughCapacity 5 (Examples.over MemFs.empty 46 42) = true
   <-> 5 + 42 <= 46)
  /\ capacityFs.hasEnoughCapacity Int64.max_signed (Examples.over MemFs.empty 0 1)
     = true.
Proof.
  split.
  - apply (proj1 (@hasEnoughCapacity_exact_until_the_sum_wraps MemFs.t 5
                    (Examples.over MemFs.empty 46 42)
                    ltac:(vm_compute; split; discriminate)
                    ltac:(vm_compute; split; discriminate))).
    vm_compute. split; discriminate.
  - apply (proj2 (@hasEnoughCapacity_exact_until_the_sum_wraps MemFs.t Int64.max_signed
                    (Examples.over MemFs.empty 0 1)
                    ltac:(vm_compute; split; discriminate)
                    ltac:(vm_compute; split; discriminate))).
    + reflexivity.
    + vm_compute. discriminate.
Defined.

Lemma statAndCheckSize_charges_within_the_limit_witness :
  capacityFs.cachedSize
    (snd (capacityFs.statAndCheckSize "d" (Examples.over Examples.store_d 100 50)))
  = Int64.wrap (50 + 42)
  /\ capacityFs.cachedSize
       (snd (capacityFs.statAndCheckSize "d" (Examples.over Examples.store_d 100 50)))
     <= 100.
Proof.
  apply (proj2 (proj2 (proj2 (statAndCheckSize_charges_within_the_limit "d"
                                (Examples.over Examples.store_d 100 50))))
           {| Size := 42; IsDir := true |});
    reflexivity.
Defined.

Lemma Mkdir_checks_after_creating_witness :
  capacityFs.Mkdir "" 493 Examples.fresh = (Some MemFs.ErrExist, Examples.fresh)
  /\ capacityFs.Mkdir "d" 493 (Examples.over Examples.logged_empty 83 42)
     = (Some ErrNotEnoughCapacity,
        {| capacityFs.Fs :=
             {| inner := MemFs.empty; calls := [CallRemove "d"; CallMkdir "d" 493] |};
           capacityFs.limitedSize := 83;
           capacityFs.cachedSize := 42 |})
  /\ capacityFs.Mkdir "d" 493 (Examples.over Examples.logged_empty 84 42)
     = (None,
        {| capacityFs.Fs :=
             {| inner := snd (MemFs.Mkdir "d" 493 MemFs.empty);
                calls := [CallMkdir "d" 493] |};
           capacityFs.limitedSize := 84;
           capacityFs.cachedSize := Int64.wrap (42 + 42) |}).
Proof.
  split; [| split].
  - apply (proj1 (Mkdir_checks_after_creating "" 493 Examples.fresh)). reflexivity.
  - apply (proj1 (proj2 (@Mkdir_checks_after_creating _ _
                           (@Logged_afero MemFs.t nat MemFs.MemFs_afero) "d" 493
                           (Examples.over Examples.logged_empty 83 42))
                    {| inner := snd (MemFs.Mkdir "d" 493 MemFs.empty);
                       calls := [CallMkdir "d" 493] |}
                    {| Size := 42; IsDir := true |}
                    ltac:(vm_compute; reflexivity) ltac:(vm_compute; reflexivity))).
    vm_compute. reflexivity.
  - apply (proj2 (proj2 (@Mkdir_checks_after_creating _ _
                           (@Logged_afero MemFs.t nat MemFs.MemFs_afero) "d" 493
                           (Examples.over Examples.logged_empty 84 42))
                    {| inner := snd (MemFs.Mkdir "d" 493 MemFs.empty);
                       calls := [CallMkdir "d" 493] |}
                    {| Size := 42; IsDir := true |}
                    ltac:(vm_compute; reflexivity) ltac:(vm_compute; reflexivity))).
    vm_compute. discriminate.
Defined.

(** ** The limit *)

Section Limit.
Context {W F : Type} `{afero_Fs W F}.

Lemma statAndCheckSize_limit (name : string) (a : capacityFs.t W) :
  capacityFs.limitedSize (snd (capacityFs.statAndCheckSize name a))
  = capacityFs.limitedSize a.
Proof.
  unfold capacityFs.statAndCheckSize.
  destruct (Fs_Stat name (capacityFs.Fs a)) as [stat | e]; [| reflexivity].
  destruct (negb (capacityFs.hasEnoughCapacity (Size stat) a)); reflexivity.
Qed.

Lemma Mkdir_limit (name : string) (perm : FileMode) (a : capacityFs.t W) :
  capacityFs.limitedSize (snd (capacityFs.Mkdir name perm a))
  = capacityFs.limitedSize a.
Proof.
  unfold capacityFs.Mkdir.
  destruct (Fs_Mkdir name perm (capacityFs.Fs a)) as [[err |] w]; [reflexivity |].
  pose proof (statAndCheckSize_limit name (capacityFs.with_Fs a w)) as Hl.
  destruct (capacityFs.statAndCheckSize name (capacityFs.with_Fs a w))
    as [[err |] a1]; cbn [snd] in *; [| exact Hl].
  destruct (Fs_Remove name (capacityFs.Fs a1)) as [rerr w']. exact Hl.
Qed.

Lemma Create_limit (name : string) (a : capacityFs.t W) :
  capacityFs.limitedSize (snd (capacityFs.Create name a)) = capacityFs.limitedSize a.
Proof.
  unfold capacityFs.Create.
  destruct (Fs_Create name (capacityFs.Fs a)) as [[fi | err] w]; [| reflexivity].
  pose proof (statAndCheckSize_limit name (capacityFs.with_Fs a w)) as Hl.
  destruct (capacityFs.statAndCheckSize name (capacityFs.with_Fs a w))
    as [[err |] a1]; cbn [snd] in *; [| exact Hl].
  destruct (Fs_Remove name (capacityFs.Fs a1)) as [rerr w']. exact Hl.
Qed.

Lemma MkdirAll_range_limit (perm : FileMode) (vs : list string) :
  forall a : capacityFs.t W,
    capacityFs.limitedSize (snd (capacityFs.MkdirAll_range vs perm a))
    = capacityFs.limitedSize a.
Proof.
  induction vs as [| v vs IH]; intros a; cbn [capacityFs.MkdirAll_range].
  - reflexivity.
  - destruct (Fs_Stat v (capacityFs.Fs a)); [apply IH |].
    pose proof (Mkdir_limit v perm a) as Hl.
    destruct (capacityFs.Mkdir v perm a) as [[err |] a1]; cbn [snd] in *.
    + exact Hl.
    + rewrite IH. exact Hl.
Qed.

Lemma removal_limit (rm : string -> W -> option error * W) (name : string)
  (a : capacityFs.t W) :
  capacityFs.limitedSize
    (snd (match capacityFs.beforeRemove name a with
          | (_, Some err) => (Some err, a)
          | (size, None) =>
              match rm name (capacityFs.Fs a) with
              | (Some err, w) => (Some err, capacityFs.with_Fs a w)
              | (None, w) =>
                  (None,
                   capacityFs.addCapacity (Int64.mul size (-1))
                     (capacityFs.with_Fs a w))
              end
          end))
  = capacityFs.limitedSize a.
Proof.
  destruct (capacityFs.beforeRemove name a) as [size [err |]]; [reflexivity |].
  destruct (rm name (capacityFs.Fs a)) as [[err |] w]; reflexivity.
Qed.

Lemma step_limit (op : Op F) (a : capacityFs.t W) :
  capacityFs.limitedSize (snd (step op a)) = capacityFs.limitedSize a.
Proof.
  destruct op as [name | name perm | name perm | name | fi p | fi p off | fi size
                  | name | name];
    cbn [step].
  - pose proof (Create_limit name a) as Hl.
    destruct (capacityFs.Create name a) as [[r err] a1]. exact Hl.
  - apply Mkdir_limit.
  - apply MkdirAll_range_limit.
  - unfold capacityFs.Open.
    destruct (Fs_Open name (capacityFs.Fs a)) as [[fi | err] w]; reflexivity.
  - unfold fileSize.Write, capacityFs.newFileSize, capacityFs.liftFile.
    cbn [fileSize.hasEnoughCapacity fileSize.File fileSize.File_Write_
         fileSize.addCapacity].
    destruct (negb (capacityFs.hasEnoughCapacity _ a)); [reflexivity |].
    destruct (File_Write fi p (capacityFs.Fs a)) as [[n err] w]. reflexivity.
  - unfold fileSize.WriteAt, capacityFs.newFileSize, capacityFs.liftFile.
    cbn [fileSize.hasEnoughCapacity fileSize.File fileSize.File_WriteAt_
         fileSize.addCapacity].
    destruct (negb (capacityFs.hasEnoughCapacity _ a)); [reflexivity |].
    destruct (File_WriteAt fi p off (capacityFs.Fs a)) as [[n err] w]. reflexivity.
  - unfold fileSize.Truncate, capacityFs.newFileSize, capacityFs.liftFile.
    cbn [fileSize.File fileSize.File_Truncate_ fileSize.addCapacity].
    destruct (File_Truncate fi size (capacityFs.Fs a)) as [[err |] w]; reflexivity.
  - apply (removal_limit Fs_Remove).
  - apply (removal_limit Fs_RemoveAll).
Qed.

(** X6.  No operation changes the limit: after any sequence of create, mkdir,
    mkdirAll, open, write, writeAt, truncate, remove and removeAll calls,
    whatever they return, over any wrapped store, the limit is the one the
    decorator was built with (and so is the first part of its [Name]). *)
Theorem the_limit_never_changes (ops : list (Op F)) (a : capacityFs.t W) :
  capacityFs.limitedSize (exec ops a) = capacityFs.limitedSize a
  /\ String.prefix ("capacityFs " ++ fmt_d (capacityFs.limitedSize a))
       (capacityFs.Name (exec ops a)) = true.
Proof.
  assert (Hl : capacityFs.limitedSize (exec ops a) = capacityFs.limitedSize a).
  { revert a. induction ops as [| op ops IH]; intros a; cbn [exec].
    - reflexivity.
    - rewrite IH. apply step_limit. }
  split; [exact Hl |].
  unfold capacityFs.Name. rewrite Hl.
  generalize (fmt_d (capacityFs.limitedSize a)) as d.
  generalize (" - " ++ Fs_Name (capacityFs.Fs (exec ops a))) as rest.
  intros rest d. rewrite <- append_assoc.
  generalize ("capacityFs " ++ d) as s. clear.
  induction s as [| c s IH]; cbn [String.append String.prefix].
  - destruct rest; reflexivity.
  - destruct (ascii_dec c c); [exact IH | congruence].
Qed.

End Limit.

(** ** Removal, directories and handles: edge cases *)

Lemma prefix_append (s t : string) : String.prefix s (s ++ t) = true.
Proof.
  induction s as [| c s IH]; cbn [String.append String.prefix].
  - destruct t; reflexivity.
  - destruct (ascii_dec c c); [exact IH | congruence].
Qed.

Lemma Join_app (l1 l2 : list string) (sep : string) :
  l1 <> [] ->
  exists rest, strings.Join (l1 ++ l2)%list sep = strings.Join l1 sep ++ rest.
Proof.
  induction l1 as [| e l1 IH]; [congruence | intros _].
  destruct l1 as [| e' l1].
  - destruct l2 as [| e2 l2].
    + exists "". cbn. symmetry. apply append_nil_r.
    + exists (sep ++ strings.Join (e2 :: l2) sep). reflexivity.
  - destruct (IH ltac:(discriminate)) as (rest & Hrest). exists rest.
    change (strings.Join ((e :: e' :: l1) ++ l2)%list sep)
      with (e ++ sep ++ strings.Join ((e' :: l1) ++ l2)%list sep).
    rewrite Hrest.
    change (strings.Join (e :: e' :: l1) sep)
      with (e ++ sep ++ strings.Join (e' :: l1) sep).
    rewrite !append_assoc. reflexivity.
Qed.

(** X7.  [possibleCombinations] returns one path per component, the [k]-th being
    the first [k+1] components joined by ["/"]; each of them is a prefix, as
    a string, of the whole path joined.  Of no components it returns
    nothing. *)
Theorem possibleCombinations_are_prefixes_of_the_path (str : list string) :
  List.length (possibleCombinations str) = List.length str
  /\ forall k,
       (k < List.length str)%nat ->
       nth k (possibleCombinations str) "" = strings.Join (firstn (S k) str) "/"
       /\ String.prefix (nth k (possibleCombinations str) "") (strings.Join str "/")
          = true.
Proof.
  unfold possibleCombinations. split.
  - rewrite List.length_map, List.length_seq. reflexivity.
  - intros k Hk.
    assert (Hnth : nth k
                     (List.map (fun k0 => strings.Join (firstn (S k0) str) "/")
                        (seq 0 (List.length str))) ""
                   = strings.Join (firstn (S k) str) "/").
    { rewrite (nth_indep _ "" (strings.Join (firstn (S 0) str) "/"))
        by (rewrite List.length_map, List.length_seq; exact Hk).
      rewrite (map_nth (fun k0 => strings.Join (firstn (S k0) str) "/")).
      rewrite seq_nth by exact Hk. reflexivity. }
    rewrite Hnth. split; [reflexivity |].
    destruct (@Join_app (firstn (S k) str) (skipn (S k) str) "/") as (rest & Hrest).
    { destruct str; [cbn in Hk; lia | discriminate]. }
    rewrite firstn_skipn in Hrest. rewrite Hrest. apply prefix_append.
Qed.

Lemma possibleCombinations_are_prefixes_of_the_path_witness :
  nth 1 (possibleCombinations ["dir1"; "dir2"; "dir3"]) "" = "dir1/dir2"
  /\ String.prefix (nth 1 (possibleCombinations ["dir1"; "dir2"; "dir3"]) "")
       "dir1/dir2/dir3" = true.
Proof.
  apply (proj2 (possibleCombinations_are_prefixes_of_the_path
                  ["dir1"; "dir2"; "dir3"]) 1%nat).
  cbn. lia.
Defined.

Section EdgeCases.
Context {W F : Type} `{afero_Fs W F}.

(** X8.  [Remove] and [RemoveAll] of a name whose [Stat] fails do not fail for
    that: the [Stat] error is dropped, the wrapped removal is called all the
    same, its outcome is the outcome of the call, and the cached total (a
    64-bit value) stays what it was whether the wrapped removal succeeds or
    not. *)
Theorem removal_of_a_name_without_Stat_frees_nothing (name : string)
  (a : capacityFs.t W) (e : error) :
  Fs_Stat name (capacityFs.Fs a) = inr e ->
  Int64.in_range (capacityFs.cachedSize a) ->
  capacityFs.Remove name a
  = (fst (Fs_Remove name (capacityFs.Fs a)),
     capacityFs.with_Fs a (snd (Fs_Remove name (capacityFs.Fs a))))
  /\ capacityFs.RemoveAll name a
     = (fst (Fs_RemoveAll name (capacityFs.Fs a)),
        capacityFs.with_Fs a (snd (Fs_RemoveAll name (capacityFs.Fs a)))).
Proof.
  intros Hs Hr.
  assert (Hb : capacityFs.beforeRemove name a = (0, None)).
  { unfold capacityFs.beforeRemove. rewrite Hs. reflexivity. }
  assert (Hsame : forall w,
             capacityFs.addCapacity (Int64.mul 0 (-1)) (capacityFs.with_Fs a w)
             = capacityFs.with_Fs a w).
  { intros w. unfold capacityFs.addCapacity, capacityFs.with_Fs.
    cbn [capacityFs.Fs capacityFs.limitedSize capacityFs.cachedSize].
    rewrite add_neg, Z.sub_0_r, (wrap_small Hr). reflexivity. }
  unfold capacityFs.Remove, capacityFs.RemoveAll. rewrite Hb. split.
  - destruct (Fs_Remove name (capacityFs.Fs a)) as [[err |] w]; cbn [fst snd];
      [reflexivity | rewrite Hsame; reflexivity].
  - destruct (Fs_RemoveAll name (capacityFs.Fs a)) as [[err |] w]; cbn [fst snd];
      [reflexivity | rewrite Hsame; reflexivity].
Qed.

Lemma MkdirAll_range_all_exist (perm : FileMode) (vs : list string)
  (a : capacityFs.t W) :
  (forall v, In v vs -> exists stat, Fs_Stat v (capacityFs.Fs a) = inl stat) ->
  capacityFs.MkdirAll_range vs perm a = (None, a).
Proof.
  induction vs as [| v vs IH]; intros Hall; cbn [capacityFs.MkdirAll_range].
  - reflexivity.
  - destruct (Hall v (or_introl eq_refl)) as (stat & Hs). rewrite Hs.
    apply IH. intros v' Hin. apply Hall. right. exact Hin.
Qed.

(** X9.  [MkdirAll] of a path every prefix of which can be stat'ed returns [nil]
    and leaves the decorator as it was: the wrapped store sees no mutating
    call, nothing is charged, and no capacity check is made (the call
    succeeds even when the budget is already exceeded). *)
Theorem MkdirAll_of_an_existing_path_does_nothing (name : string) (perm : FileMode)
  (a : capacityFs.t W) :
  (forall v,
     In v (possibleCombinations (strings.Split name "/")) ->
     exists stat, Fs_Stat v (capacityFs.Fs a) = inl stat) ->
  capacityFs.MkdirAll name perm a = (None, a).
Proof. intros Hall. apply MkdirAll_range_all_exist. exact Hall. Qed.

(** X10.  Truncating a file to the count a [Write] has just reported gives the
    whole charge of that write back: the cached total (a 64-bit value) is
    what it was before the write, whatever the wrapped store made of the two
    calls.  This is the arithmetic the package's test of [fileSize] asserts. *)
Theorem Truncate_to_the_count_written_returns_the_charge (fi : F)
  (p : list Byte.byte) (n : Z) (a a1 a2 : capacityFs.t W) :
  Int64.in_range (capacityFs.cachedSize a) ->
  fileSize.Write (capacityFs.newFileSize fi) p a = ((n, None), a1) ->
  fileSize.Truncate (capacityFs.newFileSize fi) n a1 = (None, a2) ->
  capacityFs.cachedSize a2 = capacityFs.cachedSize a.
Proof.
  intros Hr Hw Ht.
  destruct (Write_ok _ _ _ Hw) as (_ & w & _ & ->).
  unfold fileSize.Truncate, capacityFs.newFileSize, capacityFs.liftFile in Ht.
  cbn [fileSize.File fileSize.File_Truncate_ fileSize.addCapacity capacityFs.Fs] in Ht.
  destruct (File_Truncate fi n w) as [[err |] w']; [discriminate |].
  injection Ht as <-. unfold capacityFs.addCapacity, capacityFs.with_Fs.
  cbn [capacityFs.Fs capacityFs.limitedSize capacityFs.cachedSize].
  rewrite add_neg. unfold Z.sub. rewrite wrap_add_l. unfold Int64.of_int.
  replace (capacityFs.cachedSize a + Int64.wrap n + - n)
    with ((capacityFs.cachedSize a - n) + Int64.wrap n) by lia.
  rewrite wrap_add_r.
  replace (capacityFs.cachedSize a - n + n) with (capacityFs.cachedSize a) by lia.
  apply wrap_small. exact Hr.
Qed.

(** X11.  When the tree is over the limit, the error of [NewCapacityFs] is not
    the sentinel [ErrNotEnoughCapacity] itself but an error wrapping it: a
    comparison by identity fails, [errors.Unwrap] gives the sentinel, and
    the message is the sentinel's followed by the two sizes. *)
Theorem NewCapacityFs_wraps_the_sentinel (f : W) (size total : Z) :
  0 <= size ->
  CalculateSizeSum f = (total, None) ->
  size < total ->
  exists e,
    NewCapacityFs (Some f) size = (None, Some e)
    /\ error_eqb e ErrNotEnoughCapacity = false
    /\ Unwrap e = Some ErrNotEnoughCapacity
    /\ Error e = "not enough capacity: " ++ fmt_d total ++ " > " ++ fmt_d size.
Proof.
  intros Hpos Hscan Hover. unfold NewCapacityFs.
  destruct (Z.ltb_spec size 0); [lia |]. rewrite Hscan.
  destruct (Z.gtb_spec total size); [| lia].
  eexists. split; [reflexivity |]. repeat split.
Qed.

End EdgeCases.

Lemma removal_of_a_name_without_Stat_frees_nothing_witness :
  capacityFs.Remove "nope" (Examples.over Examples.store_d 1024 84)
  = (fst (MemFs.Remove "nope" Examples.store_d),
     capacityFs.with_Fs (Examples.over Examples.store_d 1024 84)
       (snd (MemFs.Remove "nope" Examples.store_d)))
  /\ capacityFs.RemoveAll "nope" (Examples.over Examples.store_d 1024 84)
     = (fst (MemFs.RemoveAll "nope" Examples.store_d),
        capacityFs.with_Fs (Examples.over Examples.store_d 1024 84)
          (snd (MemFs.RemoveAll "nope" Examples.store_d))).
Proof.
  apply (@removal_of_a_name_without_Stat_frees_nothing MemFs.t nat MemFs.MemFs_afero
           "nope" (Examples.over Examples.store_d 1024 84) MemFs.ErrNotExist).
  - reflexivity.
  - vm_compute. split; discriminate.
Defined.

Lemma MkdirAll_of_an_existing_path_does_nothing_witness :
  capacityFs.MkdirAll "dir1/dir2" 493 (Examples.over Examples.store_dirs 0 126)
  = (None, Examples.over Examples.store_dirs 0 126).
Proof.
  apply (@MkdirAll_of_an_existing_path_does_nothing MemFs.t nat MemFs.MemFs_afero).
  intros v Hin. vm_compute in Hin.
  destruct Hin as [<- | [<- | []]]; eexists; reflexivity.
Defined.

Lemma Truncate_to_the_count_written_returns_the_charge_witness :
  capacityFs.cachedSize
    (snd (fileSize.Truncate (capacityFs.newFileSize 0%nat) 3
            (snd (fileSize.Write (capacityFs.newFileSize 0%nat) Examples.abc
                    (Examples.over Examples.store_f 1024 42)))))
  = 42.
Proof.
  apply (@Truncate_to_the_count_written_returns_the_charge MemFs.t nat
           MemFs.MemFs_afero 0%nat Examples.abc 3
           (Examples.over Examples.store_f 1024 42)
           (snd (fileSize.Write (capacityFs.newFileSize 0%nat) Examples.abc
                   (Examples.over Examples.store_f 1024 42)))).
  - vm_compute. split; discriminate.
  - reflexivity.
  - reflexivity.
Defined.

Lemma NewCapacityFs_wraps_the_sentinel_witness :
  exists e,
    NewCapacityFs (Some MemFs.empty) 10 = (None, Some e)
    /\ error_eqb e ErrNotEnoughCapacity = false
    /\ Unwrap e = Some ErrNotEnoughCapacity
    /\ Error e = "not enough capacity: 42 > 10".
Proof.
  apply (@NewCapacityFs_wraps_the_sentinel MemFs.t nat MemFs.MemFs_afero
           MemFs.empty 10 42).
  - vm_compute. discriminate.
  - reflexivity.
  - reflexivity.
Defined.

(** ** Opening files *)

Section Opening.
Context {W F : Type} `{afero_Fs W F}.


End Opening.


(** ** Removing a directory *)

Lemma wrap_sub_r (x y : Z) : Int64.wrap (x - Int64.wrap y) = Int64.wrap (x - y).
Proof.
  unfold Int64.wrap. f_equal.
  replace (x - ((y + Int64.half_modulus) mod Int64.modulus - Int64.half_modulus)
           + Int64.half_modulus)
    with (x + 2 * Int64.half_modulus - (y + Int64.half_modulus) mod Int64.modulus)
    by lia.
  rewrite Zminus_mod_idemp_r. f_equal. lia.
Qed.

Lemma filepath_Join_empty (name : string) : filepath_Join name "" = name.
Proof.
  unfold filepath_Join. destruct (String.eqb_spec name "") as [-> | _]; reflexivity.
Qed.

Section Subtree.
Context {W F : Type} `{afero_Fs W F}.


End Subtree.

